(** * Headings in Explorer: a shallow embedding of [src/main.ts]

    The plugin keeps a per-file index of heading entries, draws it under the
    file's entry in the host's file tree, and locates the heading above the
    editor cursor by binary search.  This file embeds the index builder
    ([createHeadingsForFile]), the cursor locator
    ([findClosestLineOnOrAbove]), the redraw ([createClickableHeadings],
    [getHeadingContainer]) and the two orchestrations around them ([init],
    [highlightFileWithHeading]) and states their properties.

    JavaScript numbers that hold line numbers, levels and array indices are
    integers ([Z]); a value that can be [undefined] at run time is an
    [option]; a thrown exception is the [Throw] result; [await] is plain
    sequencing, the host being single threaded. *)

From Stdlib Require Import ZArith Lia List Sorting.Sorted Sorting.Permutation.
From Stdlib Require Import Ascii String DecimalString.
From stdpp Require Import base option list gmap strings.
From Equations Require Import Equations.

Local Open Scope string_scope.
Local Open Scope list_scope.
Local Open Scope Z_scope.

(** ** Data model (main.ts, lines 3-60) *)

Record RegexSetting := mkRegexSetting {
  pattern : string;
  rs_level : Z
}.

Record HeadingPluginSettings := mkSettings {
  showHeadings : bool;
  showHeading1 : bool;
  showHeading2 : bool;
  showHeading3 : bool;
  showHeading4 : bool;
  showHeading5 : bool;
  showHeading6 : bool;
  regexArray : list RegexSetting
}.

(** A reference to a DOM element is the identity the document gave it when
    it was created. *)
Definition ElementRef := nat.

(** [text] is declared [string], yet the pattern branch can store
    [undefined] in it (see [entryOfMatch]); [uiElement] is optional in the
    source. *)
Record HeadingEntry := mkHeading {
  text : option string;
  level : Z;
  line : Z;
  uiElement : option ElementRef
}.

Definition DEFAULT_SETTINGS : HeadingPluginSettings :=
  {| showHeadings := true;
     showHeading1 := true; showHeading2 := true; showHeading3 := true;
     showHeading4 := true; showHeading5 := true; showHeading6 := true;
     regexArray := [ {| pattern := "^\*\*([^*]+)\*\*$"; rs_level := 7 |} ] |}.

(** ** Exceptions

    [PluginError] is the plain [Error] the plugin itself rejects with,
    [HostError] a rejection by a host call. *)

Inductive JsError :=
| TypeError (what : string)
| SyntaxError (what : string)
| PluginError (what : string)
| HostError (what : string).

Inductive Result (A : Type) :=
| Ok (a : A)
| Throw (e : JsError).
Arguments Ok {A} a.
Arguments Throw {A} e.

(** ** Cursor locator (main.ts, lines 134-157) *)

(** [arr[i]] for an integer [i]: [undefined] outside the array. *)
Definition array_get {A} (arr : list A) (i : Z) : option A :=
  if i <? 0 then None else arr !! Z.to_nat i.

(** The [while (start <= end)] loop.  Reading [.line] of an element that is
    not there would be a TypeError, so the loop returns a [Result]. *)
Equations? search_loop (headingArray : list HeadingEntry) (target : Z)
    (start end_ : Z) (bestMatch : option HeadingEntry)
    : Result (option HeadingEntry) by wf (Z.to_nat (end_ - start + 1)) lt :=
  search_loop headingArray target start end_ bestMatch
    with Z_le_gt_dec start end_ := {
    | right _ => Ok bestMatch
    | left _ =>
        match array_get headingArray ((start + end_) / 2) with
        | None => Throw (TypeError "headingArray[mid] is undefined")
        | Some h =>
            if line h =? target then Ok (Some h)
            else if line h <? target then
              search_loop headingArray target ((start + end_) / 2 + 1) end_ (Some h)
            else
              search_loop headingArray target start ((start + end_) / 2 - 1) bestMatch
        end }.
Proof.
  all: assert (start <= (start + end_) / 2 <= end_)
         by (split; [apply Z.div_le_lower_bound | apply Z.div_le_upper_bound]; lia);
       lia.
Qed.

(** The argument is whatever the caller found in the index: [None] is
    [undefined], on which [.length] throws. *)
Definition findClosestLineOnOrAbove (headingArray : option (list HeadingEntry))
    (target : Z) : Result (option HeadingEntry) :=
  match headingArray with
  | None => Throw (TypeError "Cannot read properties of undefined (reading 'length')")
  | Some arr =>
      if (Z.of_nat (length arr) =? 0) then Ok None
      else search_loop arr target 0 (Z.of_nat (length arr) - 1) None
  end.

Definition sorted_by_line (l : list HeadingEntry) : Prop :=
  StronglySorted Z.le (map line l).

(** An entry of level 1 at line [n], not yet drawn. *)
Definition h_ (n : Z) (s : string) : HeadingEntry :=
  {| text := Some s; level := 1; line := n; uiElement := None |}.

(** ** The host's regular expressions

    [new RegExp(pattern)] and [line.match(regex)] belong to the JavaScript
    runtime.  The index builder is written against this interface;
    [HostRegExp] below gives an instance for a fragment of the pattern
    syntax. *)

(** The array a successful, non-global [match] returns: element 0 is the
    matched text, element [i] the text of capture group [i], [undefined]
    for a group that took no part in the match. *)
Record MatchArray := mkMatch {
  whole : string;
  groups : list (option string)
}.

Definition match_array (m : MatchArray) : list (option string) :=
  Some (whole m) :: groups m.

Class RegExpEngine := {
  RegExp : Type;
  (** [None]: the constructor throws a SyntaxError *)
  RegExp_new : string -> option RegExp;
  (** [None]: [match] returns [null] *)
  String_match : string -> RegExp -> option MatchArray
}.

(** ** The host's document and file tree *)

(** What a heading node's click handlers have captured: the event, the
    file to open, the line to go to, and whether a new leaf is asked for. *)
Record Listener := mkListener {
  event : string;
  nav_path : string;
  nav_line : Z;
  nav_newLeaf : bool
}.

#[warnings="-register-all"] Inductive Element :=
| mkElement (elId : ElementRef) (classList : list string) (textContent : string)
            (marginLeft : string) (listeners : list Listener)
            (children : list Element).

Definition el_id (e : Element) : ElementRef :=
  match e with mkElement i _ _ _ _ _ => i end.
Definition el_classes (e : Element) : list string :=
  match e with mkElement _ c _ _ _ _ => c end.
Definition el_text (e : Element) : string :=
  match e with mkElement _ _ t _ _ _ => t end.
Definition el_margin (e : Element) : string :=
  match e with mkElement _ _ _ m _ _ => m end.
Definition el_listeners (e : Element) : list Listener :=
  match e with mkElement _ _ _ _ l _ => l end.
Definition el_children (e : Element) : list Element :=
  match e with mkElement _ _ _ _ _ ch => ch end.

(** A position below an element: the child indices to follow. *)
Definition Path := list nat.

Definition has_class (c : string) (e : Element) : bool :=
  existsb (String.eqb c) (el_classes e).

(** First hit of [q] among the elements of a list, in order; the hit is
    reported with the index of the list element in front. *)
Definition first_in {A} (q : A -> option Path) : list A -> option Path :=
  fix go (l : list A) : option Path :=
    match l with
    | [] => None
    | x :: l' =>
        match q x with
        | Some p => Some (0%nat :: p)
        | None =>
            match go l' with
            | Some (i :: p) => Some (S i :: p)
            | _ => None
            end
        end
    end.

(** The first element with class [c] in document order, the element itself
    included. *)
Fixpoint find_class (c : string) (e : Element) : option Path :=
  match e with
  | mkElement _ cl _ _ _ ch =>
      if existsb (String.eqb c) cl then Some []
      else first_in (find_class c) ch
  end.

(** [item.querySelector('.' + c)]: the first descendant with class [c]. *)
Definition querySelector (c : string) (item : Element) : option Path :=
  first_in (find_class c) (el_children item).

Fixpoint getAt (p : Path) (e : Element) : option Element :=
  match p with
  | [] => Some e
  | i :: p' => el_children e !! i ≫= getAt p'
  end.

Definition set_children (ch : list Element) (e : Element) : Element :=
  match e with mkElement i c t m l _ => mkElement i c t m l ch end.

(** A mutation made through a reference to the element at [p]. *)
Fixpoint modifyAt (p : Path) (f : Element -> Element) (e : Element) : Element :=
  match p with
  | [] => f e
  | i :: p' => set_children (alter (modifyAt p' f) i (el_children e)) e
  end.

Definition replaceChildren (e : Element) : Element := set_children [] e.
Definition appendChild (child : Element) (e : Element) : Element :=
  set_children (el_children e ++ [child]) e.

(** Number of elements with class [c] in the subtree of [e], [e] included. *)
Fixpoint count_class (c : string) (e : Element) : nat :=
  match e with
  | mkElement _ cl _ _ _ ch =>
      ((if existsb (String.eqb c) cl then 1 else 0)
       + list_sum (map (count_class c) ch))%nat
  end.

(** Number of descendants of [item] with class [c]. *)
Definition count_below (c : string) (item : Element) : nat :=
  list_sum (map (count_class c) (el_children item)).


(** [el.addClass(c)] through a reference, wherever the element is. *)
Fixpoint addClassRef (r : ElementRef) (c : string) (e : Element) : Element :=
  match e with
  | mkElement i cl t m l ch =>
      mkElement i (if (i =? r)%nat then
                     if existsb (String.eqb c) cl then cl else cl ++ [c]
                   else cl)
                t m l (map (addClassRef r c) ch)
  end.

Record FileItemInfo := mkInfo {
  height : Z;
  computed : bool
}.

Record FileItem := mkFileItem {
  info : FileItemInfo;
  innerEl : Element
}.

Record TFile := mkFile {
  path : string;
  name : string;
  extension : string
}.

(** One heading of the metadata cache: [heading.heading], [heading.level]
    and [heading.position.start.line]. *)
Record HeadingCache := mkHeadingCache {
  heading : string;
  hc_level : Z;
  hc_line : Z
}.

Record CachedMetadata := mkMetadata {
  headings : option (list HeadingCache)
}.

(** A markdown leaf: the file of its view and the editor's cursor line. *)
Record WorkspaceLeaf := mkLeaf {
  view_file : option TFile;
  cursor_line : Z
}.

Inductive TimerAction :=
| RemoveClass (target : option ElementRef) (cls : string).

(** The plugin instance together with the host objects it reaches. *)
Record World := mkWorld {
  settings : HeadingPluginSettings;
  lastActiveMarkdownLeaf : option WorkspaceLeaf;
  (** [cachedHeadings[name]]; a stored [None] is a stored [undefined] *)
  cachedHeadings : gmap string (option (list HeadingEntry));
  (** [fileItems] of the first leaf whose view has them, by path *)
  fileItems : option (gmap string FileItem);
  (** [metadataCache.getFileCache], by path *)
  metadataCache : gmap string CachedMetadata;
  (** [vault.read], by path *)
  vault : gmap string string;
  (** [vault.getMarkdownFiles()] *)
  markdownFiles : list TFile;
  (** identity of the next element [document.createElement] makes *)
  nextElementId : ElementRef;
  (** [parseInt] of the body's [--clickable-heading-margin-multiplier];
      [None] is [NaN] *)
  marginMultiplierCss : option Z;
  (** files [revealInFolder] was asked to reveal, oldest first *)
  revealed : list string;
  (** pending [setTimeout] callbacks with their delay in milliseconds *)
  timers : list (Z * TimerAction)
}.

(** ** Computations that read and change the world and may throw *)

Definition M (A : Type) : Type := World -> Result A * World.

Definition ret {A} (a : A) : M A := fun w => (Ok a, w).
Definition throw {A} (e : JsError) : M A := fun w => (Throw e, w).
Definition bind {A B} (m : M A) (k : A -> M B) : M B :=
  fun w => match m w with
           | (Ok a, w') => k a w'
           | (Throw e, w') => (Throw e, w')
           end.

Notation "'let*' x ':=' m 'in' k" := (bind m (fun x => k))
  (at level 10, x name, m at level 100, k at level 200, only parsing).

Definition set_fileItems (fi : option (gmap string FileItem)) (w : World) : World :=
  mkWorld (settings w) (lastActiveMarkdownLeaf w) (cachedHeadings w) fi
          (metadataCache w) (vault w) (markdownFiles w) (nextElementId w)
          (marginMultiplierCss w) (revealed w) (timers w).
Definition set_nextElementId (n : ElementRef) (w : World) : World :=
  mkWorld (settings w) (lastActiveMarkdownLeaf w) (cachedHeadings w) (fileItems w)
          (metadataCache w) (vault w) (markdownFiles w) n
          (marginMultiplierCss w) (revealed w) (timers w).
Definition set_cachedHeadings (c : gmap string (option (list HeadingEntry)))
    (w : World) : World :=
  mkWorld (settings w) (lastActiveMarkdownLeaf w) c (fileItems w)
          (metadataCache w) (vault w) (markdownFiles w) (nextElementId w)
          (marginMultiplierCss w) (revealed w) (timers w).
Definition set_revealed (r : list string) (w : World) : World :=
  mkWorld (settings w) (lastActiveMarkdownLeaf w) (cachedHeadings w) (fileItems w)
          (metadataCache w) (vault w) (markdownFiles w) (nextElementId w)
          (marginMultiplierCss w) r (timers w).
Definition set_timers (t : list (Z * TimerAction)) (w : World) : World :=
  mkWorld (settings w) (lastActiveMarkdownLeaf w) (cachedHeadings w) (fileItems w)
          (metadataCache w) (vault w) (markdownFiles w) (nextElementId w)
          (marginMultiplierCss w) (revealed w) t.

(** ** Runtime helpers: [sort], [split], number to string *)

(** [Array.prototype.sort(cmp)]: the sort is stable, so for a consistent
    comparator its result is the one of insertion from the right, an
    element going in front of the first one it does not exceed. *)
Fixpoint sort_insert {A} (cmp : A -> A -> Z) (x : A) (l : list A) : list A :=
  match l with
  | [] => [x]
  | y :: l' => if cmp x y <=? 0 then x :: y :: l' else y :: sort_insert cmp x l'
  end.

Fixpoint Array_sort {A} (cmp : A -> A -> Z) (l : list A) : list A :=
  match l with
  | [] => []
  | x :: l' => sort_insert cmp x (Array_sort cmp l')
  end.

(** The comparator [(a, b) => a.line - b.line]. *)
Definition by_line (a b : HeadingEntry) : Z := line a - line b.

(** [s.split(sep)] for a one-character separator: never empty. *)
Fixpoint split_on (sep : ascii) (s : string) : list string :=
  match s with
  | EmptyString => [EmptyString]
  | String c s' =>
      if Ascii.eqb c sep then EmptyString :: split_on sep s'
      else match split_on sep s' with
           | [] => [String c EmptyString]
           | l :: ls => String c l :: ls
           end
  end.

Definition newline : ascii := ascii_of_nat 10.

(** [`${n}`] for an integer. *)
Definition string_of_Z (n : Z) : string := NilZero.string_of_int (Z.to_int n).

(** ** Explorer UI (main.ts, lines 287-404) *)

Definition container_class : string := "file-heading-container".
Definition heading_class : string := "clickable-heading".

(** [getHeadingContainer(item)]: the item after the call, where the
    container is in it, and the next free identity. *)
Definition getHeadingContainer (item : Element) (nid : ElementRef)
    : Element * Path * ElementRef :=
  match querySelector container_class item with
  | Some existingContainer => (item, existingContainer, nid)
  | None =>
      let newContainer := mkElement nid [container_class] "" "" [] [] in
      (appendChild newContainer item, [length (el_children item)], S nid)
  end.

(** [parseInt(...) || 10]: zero and [NaN] are falsy. *)
Definition getMarginMultiplier (w : World) : Z :=
  match marginMultiplierCss w with
  | Some 0 | None => 10
  | Some n => n
  end.

(** The [div] built for one heading (lines 364-399).  Assigning
    [undefined] to [textContent] empties it. *)
Definition headingItemFor (file : TFile) (mult : Z) (h : HeadingEntry)
    (nid : ElementRef) : Element :=
  mkElement nid [heading_class] (default "" (text h))
            (string_of_Z ((level h - 1) * mult) +:+ "px")
            [ mkListener "click" (path file) (line h) false;
              mkListener "auxclick" (path file) (line h) true ]
            [].

Definition set_uiElement (r : option ElementRef) (h : HeadingEntry) : HeadingEntry :=
  mkHeading (text h) (level h) (line h) r.

(** One round of [headings.forEach]: the item, the next identity and the
    entries seen so far, which now point at their nodes. *)
Definition drawHeading (file : TFile) (mult : Z) (container : Path)
    (st : Element * ElementRef * list HeadingEntry) (h : HeadingEntry)
    : Element * ElementRef * list HeadingEntry :=
  let '(item, nid, seen) := st in
  (modifyAt container (appendChild (headingItemFor file mult h nid)) item,
   S nid,
   seen ++ [set_uiElement (Some nid) h]).

Definition set_innerEl (e : Element) (fi : FileItem) : FileItem :=
  mkFileItem (info fi) e.

(** [createClickableHeadings(file, headings)].  The entries are mutated in
    place, so the caller's array is the returned one. *)
Definition createClickableHeadings (file : TFile) (headings : list HeadingEntry)
    : M (list HeadingEntry) := fun w =>
  if Z.of_nat (length headings) =? 0 then (Ok headings, w)
  else
    match fileItems w with
    | None => (Throw (PluginError "Could not find file explorer leaf."), w)
    | Some fileExplorerLeafItems =>
        match fileExplorerLeafItems !! path file with
        | None =>
            (Throw (TypeError "Cannot read properties of undefined (reading 'innerEl')"), w)
        | Some fileItem =>
            let '(item1, headingContainer, nid1) :=
              getHeadingContainer (innerEl fileItem) (nextElementId w) in
            let item2 := modifyAt headingContainer replaceChildren item1 in
            let '(item3, nid3, drawn) :=
              fold_left (drawHeading file (getMarginMultiplier w) headingContainer)
                        headings (item2, nid1, []) in
            (Ok drawn,
             set_nextElementId nid3
               (set_fileItems
                  (Some (<[path file := set_innerEl item3 fileItem]>
                           fileExplorerLeafItems)) w))
        end
    end.

(** [clearExplorerHeight()]: without an explorer leaf the promise rejects
    and nothing is changed. *)
Definition clearExplorerHeight (w : World) : World :=
  match fileItems w with
  | None => w
  | Some items =>
      set_fileItems
        (Some ((fun obj => mkFileItem (mkInfo 0 false) (innerEl obj)) <$> items)) w
  end.

(** ** Index builder (main.ts, lines 218-285) *)

Definition level_hidden (s : HeadingPluginSettings) (lvl : Z) : bool :=
  ((lvl =? 1) && negb (showHeading1 s))
  || ((lvl =? 2) && negb (showHeading2 s))
  || ((lvl =? 3) && negb (showHeading3 s))
  || ((lvl =? 4) && negb (showHeading4 s))
  || ((lvl =? 5) && negb (showHeading5 s))
  || ((lvl =? 6) && negb (showHeading6 s)).

Definition entryOfHeading (h : HeadingCache) : HeadingEntry :=
  {| text := Some (heading h); level := hc_level h; line := hc_line h;
     uiElement := None |}.

(** The [reduce] over the host's headings. *)
Definition mappedHeadings (s : HeadingPluginSettings) (hs : list HeadingCache)
    : list HeadingEntry :=
  fold_left (fun acc h =>
               if level_hidden s (hc_level h) then acc
               else acc ++ [entryOfHeading h])
            hs [].

Section IndexBuilder.
Context `{engine : RegExpEngine}.

(** The entry pushed for a match (lines 264-276). *)
Definition entryOfMatch (matches : list (option string))
    (regexSetting : RegexSetting) (index : Z) : HeadingEntry :=
  if Z.of_nat (length matches) <? 1 then
    {| text := mjoin (matches !! 0%nat); level := rs_level regexSetting;
       line := index; uiElement := None |}
  else
    {| text := mjoin (matches !! 1%nat); level := rs_level regexSetting;
       line := index; uiElement := None |}.

(** One round of the inner [forEach]; a throw ends the whole walk. *)
Definition matchOne (ln : string) (index : Z)
    (acc : Result (list HeadingEntry)) (regexSetting : RegexSetting)
    : Result (list HeadingEntry) :=
  match acc with
  | Throw e => Throw e
  | Ok matchedHeadings =>
      match RegExp_new (pattern regexSetting) with
      | None =>
          Throw (SyntaxError ("Invalid regular expression: "
                                +:+ pattern regexSetting))
      | Some regex =>
          match String_match ln regex with
          | Some m =>
              Ok (matchedHeadings
                    ++ [entryOfMatch (match_array m) regexSetting index])
          | None => Ok matchedHeadings
          end
      end
  end.

(** The outer [fileLines.forEach((line, index) => ...)]. *)
Fixpoint matchLines (s : HeadingPluginSettings) (fileLines : list string)
    (index : Z) (acc : Result (list HeadingEntry))
    : Result (list HeadingEntry) :=
  match fileLines with
  | [] => acc
  | ln :: rest =>
      matchLines s rest (index + 1)
                 (fold_left (matchOne ln index) (regexArray s) acc)
  end.

Definition matchedHeadings (s : HeadingPluginSettings) (fileContent : string)
    : Result (list HeadingEntry) :=
  matchLines s (split_on newline fileContent) 0 (Ok []).

(** [createHeadingsForFile(file)]; [Ok None] is the bare [return]. *)
Definition createHeadingsForFile (file : TFile)
    : M (option (list HeadingEntry)) := fun w =>
  match metadataCache w !! path file with
  | None => (Ok None, w)
  | Some fileCache =>
      let mapped := mappedHeadings (settings w)
                                   (default [] (headings fileCache)) in
      if Z.of_nat (length (regexArray (settings w))) =? 0 then
        (let* drawn := createClickableHeadings file (Array_sort by_line mapped) in
         ret (Some drawn)) w
      else
        match vault w !! path file with
        | None => (Throw (HostError "vault.read failed"), w)
        | Some fileContent =>
            match matchedHeadings (settings w) fileContent with
            | Throw e => (Throw e, w)
            | Ok matched =>
                (let* drawn :=
                   createClickableHeadings file
                     (Array_sort by_line (mapped ++ matched)) in
                 ret (Some drawn)) w
            end
        end
  end.

(** What the pattern matcher contributes to the index of [file]. *)
Definition pattern_part (w : World) (file : TFile) (matched : list HeadingEntry)
    : Prop :=
  (regexArray (settings w) = [] /\ matched = [])
  \/ (regexArray (settings w) <> [] /\
      exists content, vault w !! path file = Some content
                      /\ matchedHeadings (settings w) content = Ok matched).

(** The loop of [init] (lines 167-171). *)
Fixpoint init_loop (files : list TFile) : M unit :=
  match files with
  | [] => ret tt
  | file :: rest =>
      let* headingsForFile := createHeadingsForFile file in
      let* _ := (fun w =>
                   (Ok tt,
                    set_cachedHeadings
                      (<[name file := headingsForFile]> (cachedHeadings w)) w)) in
      init_loop rest
  end.

(** [init()].  [setupLocateButton] only touches the explorer's header and
    is left out; [clearExplorerHeight] is not awaited, its failure is
    not [init]'s.  In the host the heights are reset only after the
    caller of [init] has resumed; the returned world shows them as that
    pending call leaves them, so nothing below is stated about heights. *)
Definition init : M unit := fun w =>
  if negb (showHeadings (settings w)) then (Ok tt, clearExplorerHeight w)
  else
    match init_loop (markdownFiles w) w with
    | (Ok _, w') => (Ok tt, clearExplorerHeight w')
    | (Throw e, w') => (Throw e, w')
    end.
End IndexBuilder.

(** ** Highlight location (main.ts, lines 188-216) *)

Definition addClassEverywhere (r : ElementRef) (c : string) (w : World) : World :=
  match fileItems w with
  | None => w
  | Some items =>
      set_fileItems
        (Some ((fun it => set_innerEl (addClassRef r c (innerEl it)) it) <$> items)) w
  end.

Definition highlightFileWithHeading : M unit := fun w =>
  match lastActiveMarkdownLeaf w with
  | None => (Ok tt, w)
  | Some activeLeaf =>
      match view_file activeLeaf with
      | None => (Ok tt, w)
      | Some activeFile =>
          let activeHeadings := mjoin (cachedHeadings w !! name activeFile) in
          let w1 := set_revealed (revealed w ++ [path activeFile]) w in
          match findClosestLineOnOrAbove activeHeadings (cursor_line activeLeaf) with
          | Throw e => (Throw e, w1)
          | Ok None => (Ok tt, w1)
          | Ok (Some closestLine) =>
              let w2 := match uiElement closestLine with
                        | Some r => addClassEverywhere r "highlighted-heading" w1
                        | None => w1
                        end in
              (Ok tt,
               set_timers (timers w2
                             ++ [(2000, RemoveClass (uiElement closestLine)
                                                    "highlighted-heading")]) w2)
          end
      end
  end.

(** ** Clearing and rebuilding (main.ts, lines 96-109, 337-348, 428-432) *)

(** What [clearHeadings] does to one tree entry: find or make its heading
    container and empty it. *)
Definition clearItem (item : Element) (nid : ElementRef) : Element * ElementRef :=
  let '(item1, headingContainer, nid1) := getHeadingContainer item nid in
  (modifyAt headingContainer replaceChildren item1, nid1).

(** One round of the [for (const key in fileExplorerLeafItems)] loop. *)
Definition clearHeadingsOf (st : gmap string FileItem * ElementRef) (key : string)
    : gmap string FileItem * ElementRef :=
  let '(items, nid) := st in
  match items !! key with
  | None => st
  | Some obj =>
      let '(item', nid') := clearItem (innerEl obj) nid in
      (<[key := set_innerEl item' obj]> items, nid')
  end.

(** [clearHeadings()] with the keys enumerated in the order [keys]. *)
Definition clearHeadingsOver (keys : list string) : M unit := fun w =>
  match fileItems w with
  | None => (Throw (PluginError "Could not find file explorer leaf."), w)
  | Some fileExplorerLeafItems =>
      let '(items', nid') :=
        fold_left clearHeadingsOf keys (fileExplorerLeafItems, nextElementId w) in
      (Ok tt, set_nextElementId nid' (set_fileItems (Some items') w))
  end.

(** The keys of the file items.  The order of the enumeration is the
    host's; it decides nothing but which identity a new container gets. *)
Definition fileItemKeys (w : World) : list string :=
  match fileItems w with
  | None => []
  | Some items => (map_to_list items).*1
  end.

Definition clearHeadings : M unit := fun w =>
  clearHeadingsOver (fileItemKeys w) w.

Section Rebuilding.
Context `{engine : RegExpEngine}.

(** [recalculateHeadings()]. *)
Definition recalculateHeadings : M unit := fun w =>
  (let* _ := clearHeadings in init) (set_cachedHeadings ∅ w).

(** The callback [onFileModified] hands to [setTimeout].  Its last call,
    [clearExplorerHeight], is not awaited: as for [init], the returned
    world shows the heights as that pending call leaves them. *)
Definition rebuildFile (file : TFile) : M unit := fun w =>
  match createHeadingsForFile file w with
  | (Ok headingsForFile, w') =>
      (Ok tt,
       clearExplorerHeight
         (set_cachedHeadings (<[name file := headingsForFile]> (cachedHeadings w')) w'))
  | (Throw e, w') => (Throw e, w')
  end.

(** [onFileModified(file)]: the delay and the callback it schedules, if
    any.  Every [TFile] is an instance of [TFile]. *)
Definition onFileModified (file : TFile) (w : World) : option (Z * M unit) :=
  if negb (showHeadings (settings w)) then None
  else if String.eqb (extension file) "md" then Some (500, rebuildFile file)
  else None.
End Rebuilding.

(** ** A host model of the regular expressions

    An instance of [RegExpEngine] for a fragment of the ECMAScript pattern
    syntax, enough to run the index builder on the patterns the plugin
    ships and documents: literals, [.], [^], [$], escapes, classes with
    ranges, groups (capturing and [(?:...)]), alternation and the
    quantifiers [*], [+], [?], greedy or lazy.  Strings are byte strings.
    Brace quantifiers, back-references, look-around, named groups and
    [\b] are outside the fragment; no statement of this file about the
    plugin depends on what the model answers there.  Outside it the model
    departs from the host: a brace is read as a literal, look-around and
    named groups are refused, an escape other than [\d \D \w \W \s \S
    \n \r \t] stands for its letter, a group keeps its capture from one
    round of a quantifier to the next, and text is matched byte by byte. *)
Module HostRegExp.

Inductive re :=
| Empty
| Chr (c : ascii)
| AnyChar
| Class (neg : bool) (ranges : list (ascii * ascii))
| Bol
| Eol
| Seq (r1 r2 : re)
| Alt (r1 r2 : re)
| Star (greedy : bool) (r : re)
| Group (n : nat) (r : re).

Definition digit_ranges : list (ascii * ascii) := [("0", "9")]%char.
Definition word_ranges : list (ascii * ascii) :=
  [("a", "z"); ("A", "Z"); ("0", "9"); ("_", "_")]%char.
Definition space_ranges : list (ascii * ascii) :=
  [(" ", " "); (ascii_of_nat 9, ascii_of_nat 13)]%char.

(** What [\c] stands for. *)
Definition escape (c : ascii) : re :=
  match c with
  | "d" => Class false digit_ranges
  | "D" => Class true digit_ranges
  | "w" => Class false word_ranges
  | "W" => Class true word_ranges
  | "s" => Class false space_ranges
  | "S" => Class true space_ranges
  | "n" => Chr (ascii_of_nat 10)
  | "r" => Chr (ascii_of_nat 13)
  | "t" => Chr (ascii_of_nat 9)
  | _ => Chr c
  end%char.

Definition escape_ranges (c : ascii) : list (ascii * ascii) :=
  match c with
  | "d" => digit_ranges
  | "w" => word_ranges
  | "s" => space_ranges
  | "n" => [(ascii_of_nat 10, ascii_of_nat 10)]
  | "r" => [(ascii_of_nat 13, ascii_of_nat 13)]
  | "t" => [(ascii_of_nat 9, ascii_of_nat 9)]
  | _ => [(c, c)]
  end%char.

(** The items of a class up to its closing bracket. *)
Fixpoint parse_class (s : list ascii) (acc : list (ascii * ascii))
    : option (list (ascii * ascii) * list ascii) :=
  match s with
  | [] => None
  | "]" :: s' => Some (acc, s')
  | "\" :: c :: s' => parse_class s' (acc ++ escape_ranges c)
  | "\" :: [] => None
  | c :: s' =>
      match s' with
      | "-" :: "]" :: _ => parse_class s' (acc ++ [(c, c)])
      | "-" :: d :: s'' =>
          if (nat_of_ascii d <? nat_of_ascii c)%nat then None
          else parse_class s'' (acc ++ [(c, d)])
      | _ => parse_class s' (acc ++ [(c, c)])
      end
  end%char.

(** A quantifier, if one follows the atom [a]. *)
Definition parse_quant (a : re) (s : list ascii) : re * list ascii :=
  match s with
  | "*" :: "?" :: s' => (Star false a, s')
  | "*" :: s' => (Star true a, s')
  | "+" :: "?" :: s' => (Seq a (Star false a), s')
  | "+" :: s' => (Seq a (Star true a), s')
  | "?" :: "?" :: s' => (Alt Empty a, s')
  | "?" :: s' => (Alt a Empty, s')
  | _ => (a, s)
  end%char.

Definition is_quant (s : list ascii) : bool :=
  match s with
  | "*" :: _ | "+" :: _ | "?" :: _ => true
  | _ => false
  end%char.

(** Disjunction, sequence and atom, by recursive descent; [ng] is the
    number of capturing groups opened so far.  [None] is a SyntaxError. *)
Fixpoint parse_alt (fuel : nat) (s : list ascii) (ng : nat)
    : option (re * list ascii * nat) :=
  match fuel with
  | O => None
  | S f =>
      match parse_seq f s ng with
      | Some (r1, "|"%char :: s', ng') =>
          match parse_alt f s' ng' with
          | Some (r2, s'', ng'') => Some (Alt r1 r2, s'', ng'')
          | None => None
          end
      | other => other
      end
  end
with parse_seq (fuel : nat) (s : list ascii) (ng : nat)
    : option (re * list ascii * nat) :=
  match fuel with
  | O => None
  | S f =>
      match s with
      | [] => Some (Empty, s, ng)
      | "|"%char :: _ => Some (Empty, s, ng)
      | ")"%char :: _ => Some (Empty, s, ng)
      | _ =>
          match parse_atom f s ng with
          | Some (a, s', ng') =>
              let '(a', s'') := parse_quant a s' in
              match parse_seq f s'' ng' with
              | Some (r, s3, ng3) => Some (Seq a' r, s3, ng3)
              | None => None
              end
          | None => None
          end
      end
  end
with parse_atom (fuel : nat) (s : list ascii) (ng : nat)
    : option (re * list ascii * nat) :=
  match fuel with
  | O => None
  | S f =>
      match s with
      | "("%char :: "?"%char :: ":"%char :: s' =>
          match parse_alt f s' ng with
          | Some (r, ")"%char :: s'', ng') => Some (r, s'', ng')
          | _ => None
          end
      | "("%char :: s' =>
          match parse_alt f s' (S ng) with
          | Some (r, ")"%char :: s'', ng') => Some (Group (S ng) r, s'', ng')
          | _ => None
          end
      | "["%char :: "^"%char :: s' =>
          match parse_class s' [] with
          | Some (rs, s'') => Some (Class true rs, s'', ng)
          | None => None
          end
      | "["%char :: s' =>
          match parse_class s' [] with
          | Some (rs, s'') => Some (Class false rs, s'', ng)
          | None => None
          end
      | "\"%char :: c :: s' => Some (escape c, s', ng)
      | "\"%char :: [] => None
      | "."%char :: s' => Some (AnyChar, s', ng)
      | "^"%char :: s' => if is_quant s' then None else Some (Bol, s', ng)
      | "$"%char :: s' => if is_quant s' then None else Some (Eol, s', ng)
      | "*"%char :: _ => None
      | "+"%char :: _ => None
      | "?"%char :: _ => None
      | ")"%char :: _ => None
      | c :: s' => Some (Chr c, s', ng)
      | [] => None
      end
  end.

(** [new RegExp(pattern)]: the expression and its number of groups. *)
Definition compile (pattern : string) : option (re * nat) :=
  let s := list_ascii_of_string pattern in
  match parse_alt (3 * length s + 3) s 0 with
  | Some (r, [], ng) => Some (r, ng)
  | _ => None
  end.

Definition in_ranges (c : ascii) (rs : list (ascii * ascii)) : bool :=
  existsb (fun '(lo, hi) =>
             (nat_of_ascii lo <=? nat_of_ascii c)%nat
             && (nat_of_ascii c <=? nat_of_ascii hi)%nat) rs.

Definition line_terminator (c : ascii) : bool :=
  (nat_of_ascii c =? 10)%nat || (nat_of_ascii c =? 13)%nat.

Definition Caps := list (nat * string).

Definition consumed (s s' : list ascii) : string :=
  string_of_list_ascii (take (length s - length s') s).

Definition orelse {X} (a b : option X) : option X :=
  match a with Some x => Some x | None => b end.

(** Backtracking matcher in continuation style: [k] is what remains to
    be matched after [r]; [n0] is the length of the whole input. *)
Fixpoint run {X} (r : re) (n0 : nat) (s : list ascii) (c : Caps)
    (k : list ascii -> Caps -> option X) : option X :=
  match r with
  | Empty => k s c
  | Chr a =>
      match s with
      | x :: s' => if Ascii.eqb x a then k s' c else None
      | [] => None
      end
  | AnyChar =>
      match s with
      | x :: s' => if line_terminator x then None else k s' c
      | [] => None
      end
  | Class neg rs =>
      match s with
      | x :: s' => if xorb neg (in_ranges x rs) then k s' c else None
      | [] => None
      end
  | Bol => if (length s =? n0)%nat then k s c else None
  | Eol => match s with [] => k s c | _ => None end
  | Seq r1 r2 => run r1 n0 s c (fun s' c' => run r2 n0 s' c' k)
  | Alt r1 r2 => orelse (run r1 n0 s c k) (run r2 n0 s c k)
  | Group n r1 =>
      run r1 n0 s c (fun s' c' => k s' ((n, consumed s s') :: c'))
  | Star greedy r1 =>
      (fix star (fuel : nat) (s : list ascii) (c : Caps) : option X :=
         match fuel with
         | O => k s c
         | S f =>
             let again :=
               run r1 n0 s c
                   (fun s' c' =>
                      if (length s' <? length s)%nat then star f s' c' else None) in
             if greedy then orelse again (k s c) else orelse (k s c) again
         end) (length s) s c
  end.

Definition capture (c : Caps) (n : nat) : option string :=
  snd <$> find (fun p => (fst p =? n)%nat) c.

(** The first position at which the expression matches. *)
Fixpoint search (r : re) (ng n0 : nat) (s : list ascii) : option MatchArray :=
  match run r n0 s [] (fun s' c => Some (s', c)) with
  | Some (s', c) =>
      Some (mkMatch (consumed s s') (map (capture c) (seq 1 ng)))
  | None =>
      match s with
      | [] => None
      | _ :: s' => search r ng n0 s'
      end
  end.

Definition exec (ln : string) (regex : re * nat) : option MatchArray :=
  let s := list_ascii_of_string ln in
  search (fst regex) (snd regex) (length s) s.

Definition engine : RegExpEngine :=
  {| RegExp := re * nat; RegExp_new := compile; String_match := exec |}.

End HostRegExp.


(** ** Vocabulary of the statements *)

(** [r] is what a search for the nearest entry at or above [t] in [S] may
    answer: an entry of greatest line not beyond [t], or nothing when
    every line is beyond [t]. *)
Definition nearest_at_or_above (S : list HeadingEntry) (t : Z)
    (r : option HeadingEntry) : Prop :=
  match r with
  | Some e => e ∈ S /\ line e <= t /\ forall e', e' ∈ S -> line e' <= t -> line e' <= line e
  | None => forall e', e' ∈ S -> t < line e'
  end.

(** The level's own flag; levels outside 1..6 have none and always show. *)
Definition level_flag (s : HeadingPluginSettings) (lvl : Z) : bool :=
  if lvl =? 1 then showHeading1 s
  else if lvl =? 2 then showHeading2 s
  else if lvl =? 3 then showHeading3 s
  else if lvl =? 4 then showHeading4 s
  else if lvl =? 5 then showHeading5 s
  else if lvl =? 6 then showHeading6 s
  else true.

(** The nodes made for a sequence of entries, the first one with identity
    [nid]. *)
Fixpoint headingItems (file : TFile) (mult : Z) (hs : list HeadingEntry)
    (nid : ElementRef) : list Element :=
  match hs with
  | [] => []
  | h :: rest => headingItemFor file mult h nid :: headingItems file mult rest (S nid)
  end.

(** The entries once each points at its node. *)
Fixpoint drawnEntries (hs : list HeadingEntry) (nid : ElementRef)
    : list HeadingEntry :=
  match hs with
  | [] => []
  | h :: rest => set_uiElement (Some nid) h :: drawnEntries rest (S nid)
  end.

(** The nodes hanging on the heading container of an item, if it has one. *)
Definition headingNodes (item : Element) : option (list Element) :=
  querySelector container_class item ≫= fun p => el_children <$> getAt p item.

(** The tree entry of a file. *)
Definition treeEntry (w : World) (file : TFile) : option Element :=
  fileItems w ≫= fun items => innerEl <$> items !! path file.


(** The entries one line contributes, pattern by pattern, when every
    pattern compiles. *)
Definition matchesOfLine `{engine : RegExpEngine} (s : HeadingPluginSettings)
    (ln : string) (index : Z) : list HeadingEntry :=
  flat_map (fun rs =>
              match RegExp_new (pattern rs) with
              | Some regex =>
                  match String_match ln regex with
                  | Some m => [ {| text := mjoin (groups m !! 0%nat);
                                   level := rs_level rs; line := index;
                                   uiElement := None |} ]
                  | None => []
                  end
              | None => []
              end) (regexArray s).

Fixpoint matchesOfLines `{engine : RegExpEngine} (s : HeadingPluginSettings)
    (fileLines : list string) (index : Z) : list HeadingEntry :=
  match fileLines with
  | [] => []
  | ln :: rest => matchesOfLine s ln index ++ matchesOfLines s rest (index + 1)
  end.

(** [vault] replaced. *)
Definition set_vault (v : gmap string string) (w : World) : World :=
  mkWorld (settings w) (lastActiveMarkdownLeaf w) (cachedHeadings w) (fileItems w)
          (metadataCache w) v (markdownFiles w) (nextElementId w)
          (marginMultiplierCss w) (revealed w) (timers w).

(** Every array of the heading index is sorted by line. *)
Definition index_sorted (w : World) : Prop :=
  forall k hs, cachedHeadings w !! k = Some (Some hs) -> sorted_by_line hs.

(** The mark a highlight request puts on the tree: the class on the node
    the found entry points at, if an entry was found and points at one. *)
Definition markNearest (r : option HeadingEntry) : Element -> Element :=
  match r ≫= uiElement with
  | Some node => addClassRef node "highlighted-heading"
  | None => fun e => e
  end.

(** ** A small vault

    A concrete world on the host model of regular expressions, on which
    the statements below are run. *)
Module Demo.
Definition lines_to_text (ls : list string) : string :=
  String.concat (String newline EmptyString) ls.

Definition a_md : TFile := mkFile "notes/a.md" "a.md" "md".
Definition b_md : TFile := mkFile "notes/b.md" "b.md" "md".

Definition host_item (title : string) : FileItem :=
  mkFileItem (mkInfo 22 true)
             (mkElement 0%nat ["nav-file-title-content"] title "" [] []).

Definition items : gmap string FileItem :=
  {[ "notes/a.md" := host_item "a"; "notes/b.md" := host_item "b" ]}.

Definition two_headings : list HeadingEntry := [h_ 0 "Intro"; h_ 3 "Details"].

Definition a_text : string :=
  lines_to_text ["# Intro"; "**Important**"; "text"; "## Details"; "**Also**"].

Definition world : World :=
  {| settings := DEFAULT_SETTINGS;
     lastActiveMarkdownLeaf := Some (mkLeaf (Some a_md) 2);
     cachedHeadings := ∅;
     fileItems := Some items;
     metadataCache :=
       {[ "notes/a.md" :=
            mkMetadata (Some [mkHeadingCache "Intro" 1 0;
                              mkHeadingCache "Details" 2 3]);
          "notes/b.md" := mkMetadata None ]};
     vault := {[ "notes/a.md" := a_text; "notes/b.md" := "plain" ]};
     markdownFiles := [a_md; b_md];
     nextElementId := 1%nat;
     marginMultiplierCss := None;
     revealed := [];
     timers := [] |}.

(** The index of [a.md] and the world once it is built and drawn. *)
Definition a_index : list HeadingEntry :=
  [ mkHeading (Some "Intro") 1 0 (Some 2%nat);
    mkHeading (Some "Important") 7 1 (Some 3%nat);
    mkHeading (Some "Details") 2 3 (Some 4%nat);
    mkHeading (Some "Also") 7 4 (Some 5%nat) ].

Definition world_a : World :=
  snd (createHeadingsForFile (engine := HostRegExp.engine) a_md world).

Definition with_settings (s : HeadingPluginSettings) (w : World) : World :=
  mkWorld s (lastActiveMarkdownLeaf w) (cachedHeadings w) (fileItems w)
          (metadataCache w) (vault w) (markdownFiles w) (nextElementId w)
          (marginMultiplierCss w) (revealed w) (timers w).

(** The default pattern followed by one with an unclosed group. *)
Definition unclosed : RegexSetting := mkRegexSetting "(TODO" 7.

Definition world_bad : World :=
  with_settings
    (mkSettings true true true true true true true
                [mkRegexSetting "^\*\*([^*]+)\*\*$" 7; unclosed])
    world.

(** Heading display switched off. *)
Definition world_off : World :=
  with_settings
    (mkSettings false true true true true true true
                [mkRegexSetting "^\*\*([^*]+)\*\*$" 7])
    world.

(** A file the metadata cache does not know yet. *)
Definition c_md : TFile := mkFile "notes/c.md" "c.md" "md".


(** No patterns configured. *)
Definition world_plain : World :=
  with_settings (mkSettings true true true true true true true []) world.

(** A file with headings in the metadata cache and no tree entry. *)
Definition d_md : TFile := mkFile "notes/d.md" "d.md" "md".

Definition world_d : World :=
  mkWorld (settings world_plain) (lastActiveMarkdownLeaf world_plain)
          (cachedHeadings world_plain) (fileItems world_plain)
          (<["notes/d.md" := mkMetadata (Some [mkHeadingCache "Only" 1 0])]>
             (metadataCache world_plain))
          (vault world_plain) [a_md; d_md; b_md] (nextElementId world_plain)
          (marginMultiplierCss world_plain) (revealed world_plain)
          (timers world_plain).
End Demo.


(** * Properties *)

(** ** Cursor locator *)

Lemma sorted_lookup (S : list HeadingEntry) (i j : nat) (a b : HeadingEntry) :
  sorted_by_line S -> S !! i = Some a -> S !! j = Some b -> (i <= j)%nat ->
  line a <= line b.
Proof.
  unfold sorted_by_line. revert i j.
  induction S as [|x S IH]; intros i j HS Hi Hj Hij; [done|].
  simpl in HS. apply StronglySorted_inv in HS as [HS Hx].
  destruct i as [|i], j as [|j]; simpl in Hi, Hj.
  - injection Hi as <-. injection Hj as <-. lia.
  - injection Hi as <-. rewrite Forall_forall in Hx. apply Hx.
    apply list_elem_of_fmap. exists b. split; [done|].
    apply list_elem_of_lookup. eauto.
  - lia.
  - eapply IH; eauto. lia.
Qed.

Lemma array_get_Some {A} (arr : list A) (i : Z) :
  0 <= i < Z.of_nat (length arr) ->
  exists x, array_get arr i = Some x /\ arr !! Z.to_nat i = Some x.
Proof.
  intros Hi. unfold array_get.
  destruct (Z.ltb_spec i 0); [lia|].
  destruct (lookup_lt_is_Some_2 arr (Z.to_nat i)) as [x Hx]; [lia|]. eauto.
Qed.

(** The loop invariant: everything left of [start] is below the target,
    [bestMatch] is the entry just left of [start], everything right of
    [end_] is above the target. *)
Lemma search_loop_correct (S : list HeadingEntry) (t start end_ : Z)
    (best : option HeadingEntry) :
  sorted_by_line S ->
  0 <= start -> end_ < Z.of_nat (length S) -> start <= end_ + 1 ->
  (forall i e, S !! i = Some e -> Z.of_nat i < start -> line e < t) ->
  (forall i e, S !! i = Some e -> end_ < Z.of_nat i -> t < line e) ->
  (if decide (start = 0) then best = None
   else exists e, best = Some e /\ S !! Z.to_nat (start - 1) = Some e) ->
  exists r, search_loop S t start end_ best = Ok r /\ nearest_at_or_above S t r.
Proof.
  intros HS.
  funelim (search_loop S t start end_ best); intros Hs0 Hend Hse Hlo Hhi Hbest.
  - (* the window is not empty: probe the middle *)
    clear Heqcall Heq.
    assert (start <= (start + end_) / 2 <= end_) as Hmid
      by (split; [apply Z.div_le_lower_bound | apply Z.div_le_upper_bound]; lia).
    set (mid := (start + end_) / 2) in *.
    destruct (array_get_Some headingArray mid) as (h & Hget & Hh); [lia|].
    rewrite Hget.
    destruct (Z.eqb_spec (line h) target) as [Heq|Hne].
    + exists (Some h). split; [done|]. simpl. split_and!.
      * apply list_elem_of_lookup. eauto.
      * lia.
      * intros; lia.
    + destruct (Z.ltb_spec (line h) target) as [Hlt|Hge].
      * apply (H h); try done; try lia.
        -- intros i e Hi Hlti.
           assert (line e <= line h); [|lia].
           apply (sorted_lookup headingArray i (Z.to_nat mid)); auto. lia.
        -- destruct (decide (mid + 1 = 0)); [lia|].
           exists h. split; [done|]. by replace (mid + 1 - 1) with mid by lia.
      * apply (H0 h); try done; try lia.
        intros i e Hi Hlti.
        assert (line h <= line e); [|lia].
        apply (sorted_lookup headingArray (Z.to_nat mid) i); auto. lia.
  - (* the window is empty: the best match so far is the answer *)
    clear Heqcall Heq.
    exists bestMatch. split; [done|].
    destruct (decide (start = 0)) as [->|Hne].
    + subst bestMatch. simpl. intros e' He'.
      apply list_elem_of_lookup in He' as [j Hj]. apply (Hhi j); [done|lia].
    + destruct Hbest as (e & -> & He). simpl. split_and!.
      * apply list_elem_of_lookup. eauto.
      * assert (line e < target); [|lia]. apply (Hlo (Z.to_nat (start - 1))); [done|lia].
      * intros e' He' Hle. apply list_elem_of_lookup in He' as [j Hj].
        destruct (decide (end_ < Z.of_nat j)) as [Hgt|Hngt].
        -- specialize (Hhi j e' Hj Hgt). lia.
        -- apply (sorted_lookup headingArray j (Z.to_nat (start - 1))); auto. lia.
Qed.

Lemma findClosest_nearest (S : list HeadingEntry) (t : Z) :
  sorted_by_line S ->
  exists r, findClosestLineOnOrAbove (Some S) t = Ok r /\ nearest_at_or_above S t r.
Proof.
  intros HS. unfold findClosestLineOnOrAbove.
  destruct (Z.eqb_spec (Z.of_nat (length S)) 0) as [H0|H0].
  - exists None. split; [done|]. destruct S; [|simpl in H0; lia].
    simpl. intros e' He'. by apply elem_of_nil in He'.
  - apply search_loop_correct; [done | lia | lia | lia | | | ].
    + intros i e _ Hi. lia.
    + intros i e Hi Hlt. apply lookup_lt_Some in Hi. lia.
    + by destruct (decide (0 = 0)).
Qed.

(** C1.  On a sequence sorted ascending by line, the locator returns (it
    does not throw) an entry of the sequence whose line is the greatest one
    not beyond the target, and it returns nothing exactly when the sequence
    has no entry at or above the target, the empty sequence included. *)
Theorem findClosestLineOnOrAbove_greatest_at_or_above
    (S : list HeadingEntry) (t : Z) :
  sorted_by_line S ->
  exists r, findClosestLineOnOrAbove (Some S) t = Ok r /\
    (forall e, r = Some e ->
       e ∈ S /\ line e <= t /\
       forall e', e' ∈ S -> line e' <= t -> line e' <= line e) /\
    (r = None <-> forall e', e' ∈ S -> t < line e').
Proof.
  intros HS. destruct (findClosest_nearest S t HS) as (r & Hr & Hn).
  exists r. split; [done|]. split.
  - intros e ->. exact Hn.
  - split.
    + intros ->. exact Hn.
    + intros Hall. destruct r as [e|]; [|done].
      destruct Hn as (He & Hle & _). specialize (Hall e He). lia.
Qed.

Lemma findClosestLineOnOrAbove_greatest_at_or_above_witness :
  sorted_by_line [h_ 0 "a"; h_ 4 "b"; h_ 9 "c"] /\
  exists r, findClosestLineOnOrAbove (Some [h_ 0 "a"; h_ 4 "b"; h_ 9 "c"]) 5 = Ok r /\
    (forall e, r = Some e ->
       e ∈ [h_ 0 "a"; h_ 4 "b"; h_ 9 "c"] /\ line e <= 5 /\
       forall e', e' ∈ [h_ 0 "a"; h_ 4 "b"; h_ 9 "c"] -> line e' <= 5 ->
                  line e' <= line e) /\
    (r = None <-> forall e', e' ∈ [h_ 0 "a"; h_ 4 "b"; h_ 9 "c"] -> 5 < line e').
Proof.
  assert (sorted_by_line [h_ 0 "a"; h_ 4 "b"; h_ 9 "c"]) as HS.
  { unfold sorted_by_line. simpl.
    repeat (constructor; [|repeat constructor; lia]). constructor. }
  split; [exact HS|].
  exact (findClosestLineOnOrAbove_greatest_at_or_above _ 5 HS).
Defined.

(** C8.  On a sorted sequence the locator's answer does not go down as the
    target goes up: both searches return, and an entry found for the lower
    target comes with an entry found for the higher one, whose line is at
    least as great. *)
Theorem findClosestLineOnOrAbove_monotone (S : list HeadingEntry) (t1 t2 : Z) :
  sorted_by_line S -> t1 <= t2 ->
  exists r1 r2,
    findClosestLineOnOrAbove (Some S) t1 = Ok r1 /\
    findClosestLineOnOrAbove (Some S) t2 = Ok r2 /\
    forall e1, r1 = Some e1 -> exists e2, r2 = Some e2 /\ line e1 <= line e2.
Proof.
  intros HS Hle.
  destruct (findClosest_nearest S t1 HS) as (r1 & Hr1 & Hn1).
  destruct (findClosest_nearest S t2 HS) as (r2 & Hr2 & Hn2).
  exists r1, r2. split; [done|]. split; [done|].
  intros e1 ->. destruct Hn1 as (He1 & Hle1 & _).
  destruct r2 as [e2|]; simpl in Hn2.
  - exists e2. split; [done|]. destruct Hn2 as (_ & _ & Hmax). apply Hmax; [done|lia].
  - specialize (Hn2 e1 He1). lia.
Qed.

Lemma findClosestLineOnOrAbove_monotone_witness :
  sorted_by_line [h_ 0 "a"; h_ 4 "b"; h_ 9 "c"] /\ 3 <= 9 /\
  exists r1 r2,
    findClosestLineOnOrAbove (Some [h_ 0 "a"; h_ 4 "b"; h_ 9 "c"]) 3 = Ok r1 /\
    findClosestLineOnOrAbove (Some [h_ 0 "a"; h_ 4 "b"; h_ 9 "c"]) 9 = Ok r2 /\
    forall e1, r1 = Some e1 -> exists e2, r2 = Some e2 /\ line e1 <= line e2.
Proof.
  assert (sorted_by_line [h_ 0 "a"; h_ 4 "b"; h_ 9 "c"]) as HS.
  { unfold sorted_by_line. simpl.
    repeat (constructor; [|repeat constructor; lia]). constructor. }
  assert (3 <= 9) as Hle by lia.
  split; [exact HS|]. split; [exact Hle|].
  exact (findClosestLineOnOrAbove_monotone _ 3 9 HS Hle).
Defined.

(** ** Sorting by line *)

Lemma sort_insert_perm {A} (cmp : A -> A -> Z) (x : A) (l : list A) :
  sort_insert cmp x l ≡ₚ x :: l.
Proof.
  induction l as [|y l IH]; simpl; [done|].
  destruct (cmp x y <=? 0); [done|].
  rewrite IH. apply Permutation_swap.
Qed.

Lemma Array_sort_perm {A} (cmp : A -> A -> Z) (l : list A) :
  Array_sort cmp l ≡ₚ l.
Proof.
  induction l as [|x l IH]; simpl; [done|].
  by rewrite sort_insert_perm, IH.
Qed.

Lemma sort_insert_sorted (x : HeadingEntry) (l : list HeadingEntry) :
  sorted_by_line l -> sorted_by_line (sort_insert by_line x l).
Proof.
  unfold sorted_by_line.
  induction l as [|y l IH]; intros HS; simpl.
  - repeat constructor.
  - apply StronglySorted_inv in HS as [HS Hy]. unfold by_line at 1.
    destruct (Z.leb_spec (line x - line y) 0) as [Hle|Hgt]; simpl.
    + constructor; [by constructor|].
      constructor; [lia|]. eapply Forall_impl; [exact Hy|]. intros; simpl in *; lia.
    + constructor; [by apply IH|].
      rewrite sort_insert_perm. simpl. constructor; [lia|done].
Qed.

Lemma Array_sort_sorted (l : list HeadingEntry) :
  sorted_by_line (Array_sort by_line l).
Proof.
  induction l as [|x l IH]; simpl.
  - constructor.
  - by apply sort_insert_sorted.
Qed.

(** Stability: entries of one line keep their relative order. *)
Lemma sort_insert_stable (n : Z) (x : HeadingEntry) (l : list HeadingEntry) :
  filter (fun e => line e = n) (sort_insert by_line x l)
  = filter (fun e => line e = n) (x :: l).
Proof.
  induction l as [|y l IH]; simpl; [done|].
  unfold by_line at 1.
  destruct (Z.leb_spec (line x - line y) 0) as [Hle|Hgt]; [done|].
  rewrite (filter_cons _ y), IH, !filter_cons.
  repeat case_decide; try done; lia.
Qed.

Lemma Array_sort_stable (n : Z) (l : list HeadingEntry) :
  filter (fun e => line e = n) (Array_sort by_line l)
  = filter (fun e => line e = n) l.
Proof.
  induction l as [|x l IH]; simpl; [done|].
  by rewrite sort_insert_stable, !filter_cons, IH.
Qed.

(** ** The structural headings *)

Lemma level_hidden_flag (s : HeadingPluginSettings) (lvl : Z) :
  level_hidden s lvl = negb (level_flag s lvl).
Proof.
  unfold level_hidden, level_flag.
  destruct (Z.eqb_spec lvl 1) as [->|]; [simpl; by destruct (showHeading1 s)|].
  destruct (Z.eqb_spec lvl 2) as [->|]; [simpl; by destruct (showHeading2 s)|].
  destruct (Z.eqb_spec lvl 3) as [->|]; [simpl; by destruct (showHeading3 s)|].
  destruct (Z.eqb_spec lvl 4) as [->|]; [simpl; by destruct (showHeading4 s)|].
  destruct (Z.eqb_spec lvl 5) as [->|]; [simpl; by destruct (showHeading5 s)|].
  destruct (Z.eqb_spec lvl 6) as [->|]; [simpl; by destruct (showHeading6 s)|].
  done.
Qed.

Lemma mappedHeadings_filter (s : HeadingPluginSettings) (hs : list HeadingCache) :
  mappedHeadings s hs
  = entryOfHeading <$> filter (fun h => level_flag s (hc_level h) = true) hs.
Proof.
  unfold mappedHeadings.
  cut (forall acc,
         fold_left (fun acc h => if level_hidden s (hc_level h) then acc
                                 else acc ++ [entryOfHeading h]) hs acc
         = acc ++ (entryOfHeading <$>
                     filter (fun h => level_flag s (hc_level h) = true) hs)).
  { intros H. by rewrite H. }
  induction hs as [|h hs IH]; intros acc; simpl.
  - by rewrite app_nil_r.
  - rewrite IH, filter_cons, level_hidden_flag.
    destruct (level_flag s (hc_level h)) eqn:E; simpl;
      [by rewrite <- app_assoc | done].
Qed.

(** ** Elements and positions *)

Lemma set_children_id (e : Element) : set_children (el_children e) e = e.
Proof. by destruct e. Qed.

Lemma el_children_set (ch : list Element) (e : Element) :
  el_children (set_children ch e) = ch.
Proof. by destruct e. Qed.

Lemma el_classes_set (ch : list Element) (e : Element) :
  el_classes (set_children ch e) = el_classes e.
Proof. by destruct e. Qed.

Lemma set_children_set (ch ch' : list Element) (e : Element) :
  set_children ch (set_children ch' e) = set_children ch e.
Proof. by destruct e. Qed.

Lemma modifyAt_ext (p : Path) (f g : Element -> Element) (e : Element) :
  (forall x, f x = g x) -> modifyAt p f e = modifyAt p g e.
Proof.
  intros Hfg. revert e. induction p as [|i p IH]; intros e; simpl; [done|].
  f_equal. apply list_alter_ext; [|done]. intros x _. apply IH.
Qed.

Lemma modifyAt_compose (p : Path) (f g : Element -> Element) (e : Element) :
  modifyAt p g (modifyAt p f e) = modifyAt p (fun x => g (f x)) e.
Proof.
  revert e. induction p as [|i p IH]; intros e; simpl; [done|].
  rewrite el_children_set, set_children_set. f_equal.
  rewrite list_alter_alter_eq. apply list_alter_ext; [|done].
  intros x _. apply IH.
Qed.

Lemma modifyAt_same (p : Path) (f : Element -> Element) (e : Element) :
  (forall x, f x = x) -> modifyAt p f e = e.
Proof.
  intros Hf. revert e. induction p as [|i p IH]; intros e; simpl; [done|].
  rewrite list_alter_id by (intros; apply IH). apply set_children_id.
Qed.

Lemma getAt_modifyAt (p : Path) (f : Element -> Element) (e : Element) :
  getAt p (modifyAt p f e) = f <$> getAt p e.
Proof.
  revert e. induction p as [|i p IH]; intros e; simpl; [done|].
  rewrite el_children_set, list_lookup_alter_eq.
  destruct (el_children e !! i) as [x|]; simpl; [apply IH|done].
Qed.

(** ** The redraw in closed form *)

Lemma fold_drawHeading (file : TFile) (mult : Z) (p : Path)
    (hs : list HeadingEntry) (item : Element) (nid : ElementRef)
    (seen : list HeadingEntry) :
  fold_left (drawHeading file mult p) hs (item, nid, seen)
  = (modifyAt p (fun c => set_children
                            (el_children c ++ headingItems file mult hs nid) c) item,
     (nid + length hs)%nat,
     seen ++ drawnEntries hs nid).
Proof.
  revert item nid seen. induction hs as [|h hs IH]; intros item nid seen; simpl.
  - rewrite app_nil_r, Nat.add_0_r. f_equal. f_equal.
    symmetry. apply modifyAt_same. intros x.
    rewrite app_nil_r. apply set_children_id.
  - rewrite IH, modifyAt_compose, <- app_assoc. simpl.
    replace (nid + S (length hs))%nat with (S (nid + length hs)) by lia.
    do 2 f_equal.
    apply modifyAt_ext. intros x. unfold appendChild.
    by rewrite el_children_set, set_children_set, <- app_assoc.
Qed.

Lemma drawnEntries_erase (hs : list HeadingEntry) (nid : ElementRef) :
  set_uiElement None <$> drawnEntries hs nid = set_uiElement None <$> hs.
Proof.
  revert nid. induction hs as [|h hs IH]; intros nid; simpl; [done|].
  by rewrite IH.
Qed.

Lemma drawnEntries_line (hs : list HeadingEntry) (nid : ElementRef) :
  line <$> drawnEntries hs nid = line <$> hs.
Proof.
  revert nid. induction hs as [|h hs IH]; intros nid; simpl; [done|].
  by rewrite IH.
Qed.


(** A redraw with entries: where it finds or puts the container, what it
    hangs there, and what it leaves in the world. *)
Lemma createClickableHeadings_draws (file : TFile) (hs : list HeadingEntry)
    (w : World) (items : gmap string FileItem) (fi : FileItem) :
  hs <> [] ->
  fileItems w = Some items ->
  items !! path file = Some fi ->
  createClickableHeadings file hs w
  = let '(item1, p, nid1) := getHeadingContainer (innerEl fi) (nextElementId w) in
    (Ok (drawnEntries hs nid1),
     set_nextElementId (nid1 + length hs)%nat
       (set_fileItems
          (Some (<[path file :=
                     set_innerEl
                       (modifyAt p (set_children
                                      (headingItems file (getMarginMultiplier w) hs nid1))
                                 item1) fi]> items)) w)).
Proof.
  intros Hne Hitems Hfi. unfold createClickableHeadings.
  destruct (Z.eqb_spec (Z.of_nat (length hs)) 0) as [H0|_].
  { destruct hs; [done|simpl in H0; lia]. }
  rewrite Hitems, Hfi.
  destruct (getHeadingContainer (innerEl fi) (nextElementId w)) as [[item1 p] nid1].
  rewrite fold_drawHeading, modifyAt_compose. simpl.
  rewrite (modifyAt_ext p _
             (set_children (headingItems file (getMarginMultiplier w) hs nid1)));
    [done|].
  intros x. unfold replaceChildren.
  by rewrite el_children_set, set_children_set.
Qed.

(** Whatever a redraw returns, it is the sequence it was given, each entry
    with its text, level and line. *)
Lemma createClickableHeadings_entries (file : TFile) (hs drawn : list HeadingEntry)
    (w w' : World) :
  createClickableHeadings file hs w = (Ok drawn, w') ->
  set_uiElement None <$> drawn = set_uiElement None <$> hs
  /\ line <$> drawn = line <$> hs.
Proof.
  destruct hs as [|h hs].
  { intros [= <- <-]. done. }
  unfold createClickableHeadings.
  destruct (Z.eqb_spec (Z.of_nat (length (h :: hs))) 0) as [H0|_];
    [simpl in H0; lia|].
  destruct (fileItems w) as [items|]; [|done].
  destruct (items !! path file) as [fi|]; [|done].
  destruct (getHeadingContainer (innerEl fi) (nextElementId w)) as [[item1 p] nid1].
  rewrite fold_drawHeading. intros [= <- <-].
  split; [apply (drawnEntries_erase (h :: hs)) | apply (drawnEntries_line (h :: hs))].
Qed.

(** ** Index builder *)

Lemma erase_fresh (l : list HeadingEntry) :
  Forall (fun e => uiElement e = None) l -> set_uiElement None <$> l = l.
Proof.
  induction 1 as [|e l He _ IH]; [done|].
  rewrite fmap_cons, IH. f_equal. destruct e; simpl in *. by subst.
Qed.

Lemma mappedHeadings_fresh (s : HeadingPluginSettings) (hs : list HeadingCache) :
  Forall (fun e => uiElement e = None) (mappedHeadings s hs).
Proof.
  rewrite mappedHeadings_filter. apply Forall_fmap, Forall_forall. by intros.
Qed.

Section IndexBuilderFacts.
Context `{engine : RegExpEngine}.

Lemma entryOfMatch_second (m : MatchArray) (rs : RegexSetting) (index : Z) :
  entryOfMatch (match_array m) rs index
  = {| text := mjoin (groups m !! 0%nat); level := rs_level rs;
       line := index; uiElement := None |}.
Proof.
  unfold entryOfMatch, match_array.
  destruct (Z.ltb_spec (Z.of_nat (length (Some (whole m) :: groups m))) 1) as [H|_];
    [simpl in H; lia | done].
Qed.

Lemma matchOne_fresh (ln : string) (index : Z) (rs : list RegexSetting)
    (acc : Result (list HeadingEntry)) (m : list HeadingEntry) :
  (forall a, acc = Ok a -> Forall (fun e => uiElement e = None) a) ->
  fold_left (matchOne ln index) rs acc = Ok m ->
  Forall (fun e => uiElement e = None) m.
Proof.
  revert acc. induction rs as [|r rs IH]; intros acc Hacc; simpl.
  - intros ->. by apply Hacc.
  - apply IH. intros a. destruct acc as [a0|e0]; simpl; [|done].
    destruct (RegExp_new (pattern r)) as [regex|]; [|done].
    destruct (String_match ln regex) as [mt|].
    + intros [= <-]. apply Forall_app. split; [by apply Hacc|].
      constructor; [|constructor]. by rewrite entryOfMatch_second.
    + intros [= <-]. by apply Hacc.
Qed.

Lemma matchLines_fresh (s : HeadingPluginSettings) (lines : list string)
    (index : Z) (acc : Result (list HeadingEntry)) (m : list HeadingEntry) :
  (forall a, acc = Ok a -> Forall (fun e => uiElement e = None) a) ->
  matchLines s lines index acc = Ok m ->
  Forall (fun e => uiElement e = None) m.
Proof.
  revert index acc. induction lines as [|ln lines IH]; intros index acc Hacc; simpl.
  - intros ->. by apply Hacc.
  - apply IH. intros a Ha. by eapply matchOne_fresh.
Qed.

Lemma matchedHeadings_fresh (s : HeadingPluginSettings) (content : string)
    (m : list HeadingEntry) :
  matchedHeadings s content = Ok m -> Forall (fun e => uiElement e = None) m.
Proof.
  apply matchLines_fresh. by intros a [= <-].
Qed.

(** The pattern entries are a function of the pattern list and the text
    alone. *)
Lemma matchedHeadings_flags (s s' : HeadingPluginSettings) (content : string) :
  regexArray s' = regexArray s ->
  matchedHeadings s' content = matchedHeadings s content.
Proof.
  intros Heq. unfold matchedHeadings.
  generalize (split_on newline content) 0 (@Ok (list HeadingEntry) []).
  intros lines. induction lines as [|ln lines IH]; intros index acc; simpl; [done|].
  by rewrite IH, Heq.
Qed.

(** A build that returns an index drew the sorted concatenation of the
    structural and the pattern entries. *)
Lemma createHeadingsForFile_built (file : TFile) (w w' : World)
    (hs : list HeadingEntry) :
  createHeadingsForFile file w = (Ok (Some hs), w') ->
  exists fc matched,
    metadataCache w !! path file = Some fc
    /\ pattern_part w file matched
    /\ createClickableHeadings file
         (Array_sort by_line
            (mappedHeadings (settings w) (default [] (headings fc)) ++ matched)) w
       = (Ok hs, w').
Proof.
  unfold createHeadingsForFile.
  destruct (metadataCache w !! path file) as [fc|]; [|done].
  destruct (Z.eqb_spec (Z.of_nat (length (regexArray (settings w)))) 0) as [H0|H0].
  - unfold bind, ret.
    destruct (createClickableHeadings file _ w) as [[drawn|e] w1] eqn:Hd; [|done].
    intros [= <- <-]. exists fc, []. split; [done|]. split.
    + left. split; [|done]. destruct (regexArray (settings w)); [done|simpl in H0; lia].
    + by rewrite app_nil_r.
  - destruct (vault w !! path file) as [content|] eqn:Hv; [|done].
    destruct (matchedHeadings (settings w) content) as [matched|e] eqn:Hm; [|done].
    unfold bind, ret.
    destruct (createClickableHeadings file _ w) as [[drawn|e] w1] eqn:Hd; [|done].
    intros [= <- <-]. exists fc, matched. split; [done|]. split; [|done].
    right. split; [by intros Hnil; rewrite Hnil in H0|]. eauto.
Qed.

Lemma built_erased (file : TFile) (w w' : World) (hs matched : list HeadingEntry)
    (fc : CachedMetadata) :
  pattern_part w file matched ->
  createClickableHeadings file
    (Array_sort by_line
       (mappedHeadings (settings w) (default [] (headings fc)) ++ matched)) w
  = (Ok hs, w') ->
  set_uiElement None <$> hs
  = Array_sort by_line
      (mappedHeadings (settings w) (default [] (headings fc)) ++ matched).
Proof.
  intros Hpat Hd. apply createClickableHeadings_entries in Hd as [-> _].
  apply erase_fresh. rewrite Array_sort_perm. apply Forall_app. split.
  - apply mappedHeadings_fresh.
  - destruct Hpat as [[_ ->]|(_ & content & _ & Hm)]; [constructor|].
    by eapply matchedHeadings_fresh.
Qed.

(** C5.  An index the builder returns is sorted ascending by line, and
    among the entries of any one line the structural ones come first, in
    their order, followed by the pattern ones, in theirs: none is lost. *)
Theorem createHeadingsForFile_sorted_structural_first (file : TFile)
    (w w' : World) (hs : list HeadingEntry) :
  createHeadingsForFile file w = (Ok (Some hs), w') ->
  sorted_by_line hs /\
  exists fc matched,
    metadataCache w !! path file = Some fc
    /\ pattern_part w file matched
    /\ forall n,
         filter (fun e => line e = n) (set_uiElement None <$> hs)
         = filter (fun e => line e = n)
                  (mappedHeadings (settings w) (default [] (headings fc)))
           ++ filter (fun e => line e = n) matched.
Proof.
  intros Hb. apply createHeadingsForFile_built in Hb as (fc & matched & Hfc & Hpat & Hd).
  split.
  - unfold sorted_by_line.
    apply createClickableHeadings_entries in Hd as [_ Hl].
    change (map line hs) with (line <$> hs). rewrite Hl.
    apply Array_sort_sorted.
  - exists fc, matched. split; [done|]. split; [done|]. intros n.
    rewrite (built_erased _ _ _ _ _ _ Hpat Hd), Array_sort_stable.
    apply filter_app.
Qed.

(** C6.  In an index the builder returns, a structural heading of the
    host's list is among the structural entries exactly when the flag of
    its level is on (levels 1 to 6 have a flag); the index is these
    entries together with all pattern entries, and the pattern entries
    are the same under any setting of the flags. *)
Theorem createHeadingsForFile_levels_filtered (file : TFile)
    (w w' : World) (hs : list HeadingEntry) :
  createHeadingsForFile file w = (Ok (Some hs), w') ->
  exists fc matched,
    metadataCache w !! path file = Some fc
    /\ pattern_part w file matched
    /\ set_uiElement None <$> hs
       ≡ₚ mappedHeadings (settings w) (default [] (headings fc)) ++ matched
    /\ (forall h, h ∈ default [] (headings fc) ->
          1 <= hc_level h <= 6 ->
          (entryOfHeading h ∈ mappedHeadings (settings w) (default [] (headings fc))
           <-> level_flag (settings w) (hc_level h) = true))
    /\ (forall e, e ∈ matched -> e ∈ set_uiElement None <$> hs)
    /\ (forall s' content,
          regexArray s' = regexArray (settings w) ->
          matchedHeadings s' content = matchedHeadings (settings w) content).
Proof.
  intros Hb. apply createHeadingsForFile_built in Hb as (fc & matched & Hfc & Hpat & Hd).
  exists fc, matched. split; [done|]. split; [done|].
  pose proof (built_erased _ _ _ _ _ _ Hpat Hd) as Her.
  split; [by rewrite Her, Array_sort_perm|]. split; [|split].
  - intros h Hh _. rewrite mappedHeadings_filter, list_elem_of_fmap. split.
    + intros (h' & Heq & Hh'). apply list_elem_of_filter in Hh' as [Hflag _].
      assert (hc_level h' = hc_level h) as <- by (by injection Heq). done.
    + intros Hflag. exists h. split; [done|]. by apply list_elem_of_filter.
  - intros e He. rewrite Her, Array_sort_perm. apply elem_of_app. by right.
  - intros s' content. apply matchedHeadings_flags.
Qed.
End IndexBuilderFacts.

Lemma demo_build :
  createHeadingsForFile (engine := HostRegExp.engine) Demo.a_md Demo.world
  = (Ok (Some Demo.a_index), Demo.world_a).
Proof. vm_compute. reflexivity. Qed.

Lemma createHeadingsForFile_sorted_structural_first_witness :
  createHeadingsForFile (engine := HostRegExp.engine) Demo.a_md Demo.world
  = (Ok (Some Demo.a_index), Demo.world_a)
  /\ sorted_by_line Demo.a_index
  /\ exists fc matched,
       metadataCache Demo.world !! path Demo.a_md = Some fc
       /\ pattern_part (engine := HostRegExp.engine) Demo.world Demo.a_md matched
       /\ forall n,
            filter (fun e => line e = n) (set_uiElement None <$> Demo.a_index)
            = filter (fun e => line e = n)
                     (mappedHeadings (settings Demo.world) (default [] (headings fc)))
              ++ filter (fun e => line e = n) matched.
Proof.
  split; [exact demo_build|].
  exact (createHeadingsForFile_sorted_structural_first
           (engine := HostRegExp.engine) Demo.a_md Demo.world Demo.world_a
           Demo.a_index demo_build).
Defined.

Lemma createHeadingsForFile_levels_filtered_witness :
  createHeadingsForFile (engine := HostRegExp.engine) Demo.a_md Demo.world
  = (Ok (Some Demo.a_index), Demo.world_a)
  /\ exists fc matched,
       metadataCache Demo.world !! path Demo.a_md = Some fc
       /\ pattern_part (engine := HostRegExp.engine) Demo.world Demo.a_md matched
       /\ set_uiElement None <$> Demo.a_index
          ≡ₚ mappedHeadings (settings Demo.world) (default [] (headings fc)) ++ matched
       /\ (forall h, h ∈ default [] (headings fc) ->
             1 <= hc_level h <= 6 ->
             (entryOfHeading h
                ∈ mappedHeadings (settings Demo.world) (default [] (headings fc))
              <-> level_flag (settings Demo.world) (hc_level h) = true))
       /\ (forall e, e ∈ matched -> e ∈ set_uiElement None <$> Demo.a_index)
       /\ (forall s' content,
             regexArray s' = regexArray (settings Demo.world) ->
             matchedHeadings (engine := HostRegExp.engine) s' content
             = matchedHeadings (engine := HostRegExp.engine) (settings Demo.world) content).
Proof.
  split; [exact demo_build|].
  exact (createHeadingsForFile_levels_filtered
           (engine := HostRegExp.engine) Demo.a_md Demo.world Demo.world_a
           Demo.a_index demo_build).
Defined.

(** ** Looking up the heading container *)

Lemma Element_forall_ind (P : Element -> Prop) :
  (forall i cl t m l ch, Forall P ch -> P (mkElement i cl t m l ch)) ->
  forall e, P e.
Proof.
  intros H. fix IH 1. intros [i cl t m l ch]. apply H.
  induction ch as [|x ch IHch]; constructor; [apply IH | exact IHch].
Qed.

Lemma first_in_Some {A} (q : A -> option Path) (l : list A) (p : Path) :
  first_in q l = Some p ->
  exists i p' x, p = i :: p' /\ l !! i = Some x /\ q x = Some p'
                 /\ forall j y, (j < i)%nat -> l !! j = Some y -> q y = None.
Proof.
  revert p. induction l as [|x l IH]; intros p; simpl; [done|].
  destruct (q x) as [p0|] eqn:Hq.
  - intros [= <-]. exists 0%nat, p0, x. split_and!; try done. intros; lia.
  - destruct (first_in q l) as [[|i p1]|] eqn:Hl; try done.
    intros [= <-]. destruct (IH _ eq_refl) as (i' & p' & y & [= -> ->] & Hy & Hqy & Hbefore).
    exists (S i'), p', y. split_and!; try done.
    intros [|j] z Hj Hz; simpl in Hz; [by injection Hz as <-|].
    apply (Hbefore j); [lia|done].
Qed.

Lemma first_in_intro {A} (q : A -> option Path) (l : list A) (i : nat) (x : A)
    (p : Path) :
  l !! i = Some x -> q x = Some p ->
  (forall j y, (j < i)%nat -> l !! j = Some y -> q y = None) ->
  first_in q l = Some (i :: p).
Proof.
  revert i. induction l as [|z l IH]; intros i Hi Hq Hbefore; [done|].
  destruct i as [|i]; simpl in *.
  - injection Hi as ->. by rewrite Hq.
  - rewrite (Hbefore 0%nat z) by (done || lia).
    rewrite (IH i); try done. intros j y Hj Hy. apply (Hbefore (S j)); [lia|done].
Qed.

Lemma first_in_None {A} (q : A -> option Path) (l : list A) :
  first_in q l = None <-> forall x, x ∈ l -> q x = None.
Proof.
  induction l as [|z l IH]; simpl.
  - split; [|done]. intros _ x Hx. by apply elem_of_nil in Hx.
  - destruct (q z) as [p0|] eqn:Hq.
    + split; [done|]. intros H. specialize (H z (list_elem_of_here _ _)). congruence.
    + destruct (first_in q l) as [[|i p1]|] eqn:Hl.
      * apply first_in_Some in Hl as (? & ? & ? & ? & _). done.
      * split; [done|]. intros H.
        assert (Some (i :: p1) = None) as Habs; [|done].
        apply IH. intros x Hx. apply H. by apply list_elem_of_further.
      * split; [|done]. intros _ x Hx. apply elem_of_cons in Hx as [->|Hx]; [done|].
        by apply IH.
Qed.

Lemma find_class_here (c : string) (e : Element) :
  find_class c e = Some [] <-> has_class c e = true.
Proof.
  destruct e as [i cl t m l ch]. unfold has_class. simpl.
  destruct (existsb (String.eqb c) cl); [done|].
  split; [|done]. intros H. apply first_in_Some in H as (? & ? & ? & ? & _). done.
Qed.

Lemma find_class_below (c : string) (e : Element) (i : nat) (p : Path) :
  find_class c e = Some (i :: p) <->
  has_class c e = false /\ first_in (find_class c) (el_children e) = Some (i :: p).
Proof.
  destruct e as [j cl t m l ch]. unfold has_class. simpl.
  destruct (existsb (String.eqb c) cl); [split; [done|intros [? _]; done]|].
  split; [done|]. by intros [_ ?].
Qed.

Lemma find_class_getAt (c : string) (p : Path) (e : Element) :
  find_class c e = Some p ->
  exists x, getAt p e = Some x /\ has_class c x = true.
Proof.
  revert e. induction p as [|i p IH]; intros e He.
  - exists e. split; [done|]. by apply find_class_here.
  - apply find_class_below in He as [_ He].
    apply first_in_Some in He as (i' & p' & x & [= <- <-] & Hx & Hfx & _).
    destruct (IH x Hfx) as (y & Hy & Hcy). exists y. simpl. by rewrite Hx.
Qed.

Lemma querySelector_getAt (c : string) (p : Path) (item : Element) :
  querySelector c item = Some p ->
  exists i p' x, p = i :: p' /\ getAt p item = Some x /\ has_class c x = true.
Proof.
  unfold querySelector. intros H.
  apply first_in_Some in H as (i & p' & x & -> & Hx & Hfx & _).
  destruct (find_class_getAt c p' x Hfx) as (y & Hy & Hcy).
  exists i, p', y. simpl. by rewrite Hx.
Qed.

Lemma has_class_set_children (c : string) (ch : list Element) (e : Element) :
  has_class c (set_children ch e) = has_class c e.
Proof. by destruct e. Qed.

Lemma find_class_modifyAt (c : string) (f : Element -> Element) (p : Path)
    (e : Element) :
  (forall x, has_class c x = true -> has_class c (f x) = true) ->
  find_class c e = Some p -> find_class c (modifyAt p f e) = Some p.
Proof.
  intros Hf. revert e. induction p as [|i p IH]; intros e He; simpl.
  - apply find_class_here, Hf. by apply find_class_here.
  - apply find_class_below in He as [Hno He].
    apply find_class_below. rewrite has_class_set_children, el_children_set.
    split; [done|].
    apply first_in_Some in He as (i' & p' & x & [= <- <-] & Hx & Hfx & Hbefore).
    apply (first_in_intro _ _ i (modifyAt p f x)).
    + by rewrite list_lookup_alter_eq, Hx.
    + by apply IH.
    + intros j y Hj Hy. rewrite list_lookup_alter_ne in Hy by lia.
      by apply (Hbefore j).
Qed.

Lemma querySelector_modifyAt (c : string) (f : Element -> Element) (p : Path)
    (item : Element) :
  (forall x, has_class c x = true -> has_class c (f x) = true) ->
  querySelector c item = Some p -> querySelector c (modifyAt p f item) = Some p.
Proof.
  unfold querySelector. intros Hf H.
  apply first_in_Some in H as (i & p' & x & -> & Hx & Hfx & Hbefore).
  simpl. rewrite el_children_set.
  apply (first_in_intro _ _ i (modifyAt p' f x)).
  - by rewrite list_lookup_alter_eq, Hx.
  - by apply find_class_modifyAt.
  - intros j y Hj Hy. rewrite list_lookup_alter_ne in Hy by lia.
    by apply (Hbefore j).
Qed.

(** Counting the elements of a class *)

Lemma count_class_unfold (c : string) (e : Element) :
  count_class c e
  = ((if has_class c e then 1 else 0)
     + list_sum (map (count_class c) (el_children e)))%nat.
Proof. by destruct e. Qed.

Lemma list_sum_zero (l : list nat) :
  list_sum l = 0%nat <-> forall n, n ∈ l -> n = 0%nat.
Proof.
  induction l as [|a l IH]; simpl.
  - split; [|done]. intros _ n Hn. by apply elem_of_nil in Hn.
  - split.
    + intros H n Hn. apply elem_of_cons in Hn as [->|Hn]; [lia|].
      apply IH; [lia|done].
    + intros H. rewrite (H a) by apply list_elem_of_here.
      simpl. apply IH. intros n Hn. apply H. by apply list_elem_of_further.
Qed.

Lemma find_class_None_count (c : string) (e : Element) :
  find_class c e = None <-> count_class c e = 0%nat.
Proof.
  induction e as [i cl t m l ch IH] using Element_forall_ind.
  rewrite count_class_unfold. unfold has_class. simpl.
  destruct (existsb (String.eqb c) cl); [split; [done|lia]|].
  rewrite first_in_None. simpl. rewrite list_sum_zero.
  rewrite Forall_forall in IH. split.
  - intros H n Hn. apply list_elem_of_In, in_map_iff in Hn as (x & <- & Hx).
    apply list_elem_of_In in Hx. apply IH; [done|]. by apply H.
  - intros H x Hx. apply IH; [done|]. apply H.
    apply list_elem_of_In, in_map, list_elem_of_In. done.
Qed.

Lemma querySelector_None_count (c : string) (item : Element) :
  querySelector c item = None <-> count_below c item = 0%nat.
Proof.
  unfold querySelector, count_below. rewrite first_in_None, list_sum_zero. split.
  - intros H n Hn. apply list_elem_of_In, in_map_iff in Hn as (x & <- & Hx).
    apply list_elem_of_In in Hx. apply find_class_None_count. by apply H.
  - intros H x Hx. apply find_class_None_count. apply H.
    apply list_elem_of_In, in_map, list_elem_of_In. done.
Qed.

Lemma list_sum_alter {A} (g : A -> nat) (F : A -> A) (l : list A) (i : nat) (y : A) :
  l !! i = Some y ->
  (list_sum (map g (alter F i l)) + g y = list_sum (map g l) + g (F y))%nat.
Proof.
  revert i. induction l as [|z l IH]; intros i Hi; [done|].
  destruct i as [|i]; simpl in *.
  - injection Hi as ->. lia.
  - specialize (IH i Hi). change (list_alter F i l) with (alter F i l). lia.
Qed.

Lemma count_class_modifyAt (c : string) (f : Element -> Element) (p : Path)
    (e x : Element) :
  getAt p e = Some x ->
  (count_class c (modifyAt p f e) + count_class c x
   = count_class c e + count_class c (f x))%nat.
Proof.
  revert e. induction p as [|i p IH]; intros e He; simpl in *.
  - injection He as ->. lia.
  - destruct (el_children e !! i) as [y|] eqn:Hy; [|done]. simpl in He.
    specialize (IH y He).
    rewrite (count_class_unfold c (set_children _ e)), (count_class_unfold c e).
    rewrite has_class_set_children, el_children_set.
    pose proof (list_sum_alter (count_class c) (modifyAt p f) _ i y Hy). lia.
Qed.

Lemma count_below_modifyAt (c : string) (f : Element -> Element) (i : nat)
    (p : Path) (item x : Element) :
  getAt (i :: p) item = Some x ->
  (count_below c (modifyAt (i :: p) f item) + count_class c x
   = count_below c item + count_class c (f x))%nat.
Proof.
  intros He. simpl in *. unfold count_below. rewrite el_children_set.
  destruct (el_children item !! i) as [y|] eqn:Hy; [|done]. simpl in He.
  pose proof (count_class_modifyAt c f p y x He).
  pose proof (list_sum_alter (count_class c) (modifyAt p f) _ i y Hy). lia.
Qed.

(** ** Redraw *)






(** Where the container is after [getHeadingContainer], provided the item
    held at most one before: it is the item's only one, and what
    [querySelector] finds. *)
Lemma getHeadingContainer_unique (item item1 : Element) (nid nid1 : ElementRef)
    (p : Path) :
  (count_below container_class item <= 1)%nat ->
  getHeadingContainer item nid = (item1, p, nid1) ->
  querySelector container_class item1 = Some p
  /\ count_below container_class item1 = 1%nat
  /\ exists i p' x, p = i :: p' /\ getAt p item1 = Some x
                    /\ has_class container_class x = true
                    /\ list_sum (map (count_class container_class) (el_children x)) = 0%nat.
Proof.
  intros Hcount. unfold getHeadingContainer.
  destruct (querySelector container_class item) as [p0|] eqn:Hq.
  - intros [= <- <- <-]. split; [done|].
    destruct (querySelector_getAt _ _ _ Hq) as (i & p' & x & -> & Hx & Hcx).
    pose proof (count_below_modifyAt container_class
                  (fun _ => mkElement 0%nat [] "" "" [] []) i p' item x Hx) as Hc.
    rewrite (count_class_unfold _ x), Hcx in Hc. simpl in Hc.
    split; [lia|]. exists i, p', x. split_and!; try done. lia.
  - intros [= <- <- <-].
    apply querySelector_None_count in Hq as Hzero.
    unfold querySelector in Hq. rewrite first_in_None in Hq.
    destruct item as [j cl t m l ch]. unfold appendChild, count_below in *. simpl in *.
    split_and!.
    + unfold querySelector. simpl.
      apply (first_in_intro _ _ (length ch) (mkElement nid [container_class] "" "" [] [])).
      * by rewrite lookup_app_r, Nat.sub_diag.
      * done.
      * intros k y Hk Hy. rewrite lookup_app_l in Hy by done.
        apply Hq. apply list_elem_of_lookup. eauto.
    + rewrite map_app, list_sum_app, Hzero. reflexivity.
    + exists (length ch), [], (mkElement nid [container_class] "" "" [] []).
      split_and!; try done. simpl. by rewrite lookup_app_r, Nat.sub_diag.
Qed.

(** Hanging new children that hold no container on the container keeps it
    the only one and the one found. *)
Lemma draw_keeps_container (item1 x : Element) (i : nat) (p' : Path)
    (new : list Element) :
  querySelector container_class item1 = Some (i :: p') ->
  count_below container_class item1 = 1%nat ->
  getAt (i :: p') item1 = Some x ->
  has_class container_class x = true ->
  list_sum (map (count_class container_class) (el_children x)) = 0%nat ->
  list_sum (map (count_class container_class) new) = 0%nat ->
  querySelector container_class (modifyAt (i :: p') (set_children new) item1)
  = Some (i :: p')
  /\ count_below container_class (modifyAt (i :: p') (set_children new) item1) = 1%nat
  /\ getAt (i :: p') (modifyAt (i :: p') (set_children new) item1)
     = Some (set_children new x).
Proof.
  intros Hq Hone Hx Hcx Hold Hnew. split_and!.
  - apply querySelector_modifyAt; [|done].
    intros y Hy. by rewrite has_class_set_children.
  - pose proof (count_below_modifyAt container_class (set_children new) i p' item1 x Hx)
      as Hc.
    rewrite (count_class_unfold _ x), (count_class_unfold _ (set_children new x)) in Hc.
    rewrite has_class_set_children, el_children_set, Hcx, Hold, Hnew in Hc. lia.
  - by rewrite getAt_modifyAt, Hx.
Qed.




(** C10.  A redraw with the empty sequence returns at once: it returns the
    sequence and leaves the world as it was, explorer, tree entries and
    next element identity included, whether or not the host has a file
    explorer or a tree entry for the file. *)
Theorem createClickableHeadings_empty_noop (file : TFile) (w : World) :
  createClickableHeadings file [] w = (Ok [], w).
Proof. reflexivity. Qed.

(** ** Pattern matcher *)

Section PatternMatcherFacts.
Context `{engine : RegExpEngine}.

(** A match array is never empty, so the branch taken is always the one
    reading element 1. *)
Lemma entryOfMatch_text (m : MatchArray) (rs : RegexSetting) (index : Z) :
  text (entryOfMatch (match_array m) rs index) = mjoin (groups m !! 0%nat).
Proof. by rewrite entryOfMatch_second. Qed.

(** With a first capture group that took part in the match, its text. *)
Lemma entryOfMatch_first_group (m : MatchArray) (rs : RegexSetting) (index : Z)
    (g : string) (rest : list (option string)) :
  groups m = Some g :: rest ->
  entryOfMatch (match_array m) rs index
  = {| text := Some g; level := rs_level rs; line := index; uiElement := None |}.
Proof. intros H. by rewrite entryOfMatch_second, H. Qed.

(** Without any capture group, [undefined]: not the matched text. *)
Lemma entryOfMatch_no_group (m : MatchArray) (rs : RegexSetting) (index : Z) :
  groups m = [] ->
  entryOfMatch (match_array m) rs index
  = {| text := None; level := rs_level rs; line := index; uiElement := None |}.
Proof. intros H. by rewrite entryOfMatch_second, H. Qed.

(** One pattern on one line: an entry exactly when the line matches. *)
Lemma matchOne_compiled (ln : string) (index : Z) (acc : list HeadingEntry)
    (rs : RegexSetting) (regex : RegExp) :
  RegExp_new (pattern rs) = Some regex ->
  matchOne ln index (Ok acc) rs
  = Ok (match String_match ln regex with
        | Some m => acc ++ [ {| text := mjoin (groups m !! 0%nat);
                                level := rs_level rs; line := index;
                                uiElement := None |} ]
        | None => acc
        end).
Proof.
  intros H. unfold matchOne. rewrite H.
  destruct (String_match ln regex); [by rewrite entryOfMatch_second|done].
Qed.
End PatternMatcherFacts.

(** The default pattern on the line of the specification. *)
Example default_pattern_Important :
  matchedHeadings (engine := HostRegExp.engine) DEFAULT_SETTINGS "**Important**"
  = Ok [ {| text := Some "Important"; level := 7; line := 0; uiElement := None |} ].
Proof. vm_compute. reflexivity. Qed.

Example default_pattern_no_match :
  matchedHeadings (engine := HostRegExp.engine) DEFAULT_SETTINGS "*Important*"
  = Ok [].
Proof. vm_compute. reflexivity. Qed.

(** C2, where the code departs from it.  The pattern [^TODO:.*$] has no
    capture group and matches the whole line [TODO: buy milk]; the entry
    the matcher makes for it has no text at all, where the claim asks for
    the matched text. *)
Theorem matchedHeadings_without_group_loses_text :
  (String_match (RegExpEngine := HostRegExp.engine) "TODO: buy milk"
     <$> RegExp_new (RegExpEngine := HostRegExp.engine) "^TODO:.*$")
  = Some (Some (mkMatch "TODO: buy milk" []))
  /\ matchedHeadings (engine := HostRegExp.engine)
       (mkSettings true true true true true true true
                   [mkRegexSetting "^TODO:.*$" 7])
       "TODO: buy milk"
     = Ok [ {| text := None; level := 7; line := 0; uiElement := None |} ].
Proof. split; vm_compute; reflexivity. Qed.

(** ** Malformed patterns *)

Lemma split_on_cons (sep : ascii) (s : string) :
  exists l ls, split_on sep s = l :: ls.
Proof.
  induction s as [|c s (l & ls & IH)]; simpl; [eauto|].
  destruct (Ascii.eqb c sep); [eauto|]. rewrite IH. eauto.
Qed.

Section MalformedPattern.
Context `{engine : RegExpEngine}.

Lemma matchOne_thrown (ln : string) (index : Z) (rs : list RegexSetting)
    (e : JsError) :
  fold_left (matchOne ln index) rs (Throw e) = Throw e.
Proof. induction rs as [|r rs IH]; simpl; [done|apply IH]. Qed.

Lemma matchLines_thrown (s : HeadingPluginSettings) (lines : list string)
    (index : Z) (e : JsError) :
  matchLines s lines index (Throw e) = Throw e.
Proof.
  revert index. induction lines as [|ln lines IH]; intros index; simpl; [done|].
  by rewrite matchOne_thrown.
Qed.

(** A walk over a pattern list that holds a malformed pattern throws. *)
Lemma matchOne_malformed (ln : string) (index : Z) (rs : list RegexSetting)
    (bad : RegexSetting) (acc : list HeadingEntry) :
  bad ∈ rs -> RegExp_new (pattern bad) = None ->
  exists msg, fold_left (matchOne ln index) rs (Ok acc) = Throw (SyntaxError msg).
Proof.
  intros Hin Hbad. revert acc.
  induction rs as [|r rs IH]; intros acc; [by apply elem_of_nil in Hin|].
  simpl. destruct (RegExp_new (pattern r)) as [regex|] eqn:Hr.
  - apply elem_of_cons in Hin as [->|Hin]; [congruence|].
    destruct (String_match ln regex); by apply IH.
  - rewrite matchOne_thrown. eauto.
Qed.

Lemma matchedHeadings_malformed (s : HeadingPluginSettings) (content : string)
    (bad : RegexSetting) :
  bad ∈ regexArray s -> RegExp_new (pattern bad) = None ->
  exists msg, matchedHeadings s content = Throw (SyntaxError msg).
Proof.
  intros Hin Hbad. unfold matchedHeadings.
  destruct (split_on_cons newline content) as (l & ls & ->). simpl.
  destruct (matchOne_malformed l 0 _ bad [] Hin Hbad) as (msg & ->).
  exists msg. apply matchLines_thrown.
Qed.

(** C3, as the code has it.  A pattern that does not compile is not
    caught: for a file with a metadata-cache entry and readable text the
    build throws the SyntaxError before anything is drawn or stored, and
    the rebuild loop stops there, so this file and the files after it
    are not indexed. *)
Theorem malformed_pattern_aborts_rebuild (file : TFile) (rest : list TFile)
    (w : World) (fc : CachedMetadata) (content : string) (bad : RegexSetting) :
  metadataCache w !! path file = Some fc ->
  vault w !! path file = Some content ->
  bad ∈ regexArray (settings w) ->
  RegExp_new (pattern bad) = None ->
  exists msg,
    createHeadingsForFile file w = (Throw (SyntaxError msg), w)
    /\ init_loop (file :: rest) w = (Throw (SyntaxError msg), w).
Proof.
  intros Hfc Hv Hin Hbad.
  destruct (matchedHeadings_malformed (settings w) content bad Hin Hbad) as (msg & Hm).
  exists msg.
  assert (createHeadingsForFile file w = (Throw (SyntaxError msg), w)) as Hc.
  { unfold createHeadingsForFile. rewrite Hfc.
    destruct (Z.eqb_spec (Z.of_nat (length (regexArray (settings w)))) 0) as [H0|_].
    - destruct (regexArray (settings w)); [by apply elem_of_nil in Hin|].
      simpl in H0. lia.
    - by rewrite Hv, Hm. }
  split; [done|]. simpl. unfold bind. by rewrite Hc.
Qed.
End MalformedPattern.

Lemma malformed_pattern_aborts_rebuild_witness :
  metadataCache Demo.world_bad !! path Demo.a_md
    = Some (mkMetadata (Some [mkHeadingCache "Intro" 1 0; mkHeadingCache "Details" 2 3]))
  /\ vault Demo.world_bad !! path Demo.a_md = Some Demo.a_text
  /\ Demo.unclosed ∈ regexArray (settings Demo.world_bad)
  /\ RegExp_new (RegExpEngine := HostRegExp.engine) (pattern Demo.unclosed) = None
  /\ exists msg,
       createHeadingsForFile (engine := HostRegExp.engine) Demo.a_md Demo.world_bad
       = (Throw (SyntaxError msg), Demo.world_bad)
       /\ init_loop (engine := HostRegExp.engine) [Demo.a_md; Demo.b_md] Demo.world_bad
          = (Throw (SyntaxError msg), Demo.world_bad).
Proof.
  assert (metadataCache Demo.world_bad !! path Demo.a_md
          = Some (mkMetadata (Some [mkHeadingCache "Intro" 1 0;
                                    mkHeadingCache "Details" 2 3]))) as H1
    by (vm_compute; reflexivity).
  assert (vault Demo.world_bad !! path Demo.a_md = Some Demo.a_text) as H2
    by (vm_compute; reflexivity).
  assert (Demo.unclosed ∈ regexArray (settings Demo.world_bad)) as H3
    by (simpl; apply list_elem_of_further, list_elem_of_here).
  assert (RegExp_new (RegExpEngine := HostRegExp.engine) (pattern Demo.unclosed) = None)
    as H4 by (vm_compute; reflexivity).
  split; [exact H1|]. split; [exact H2|]. split; [exact H3|]. split; [exact H4|].
  exact (malformed_pattern_aborts_rebuild (engine := HostRegExp.engine)
           Demo.a_md [Demo.b_md] Demo.world_bad _ _ _ H1 H2 H3 H4).
Defined.

(** C3 as stated fails.  With the default pattern and one that does not
    compile, the rebuild throws instead of going on: neither [a.md], which
    the default pattern matches, nor [b.md] gets an index entry, and
    nothing is drawn, where the same rebuild without the malformed pattern
    indexes both. *)
Lemma malformed_pattern_counterexample :
  RegExp_new (RegExpEngine := HostRegExp.engine) "(TODO" = None
  /\ fst (init (engine := HostRegExp.engine) Demo.world_bad)
     = Throw (SyntaxError "Invalid regular expression: (TODO")
  /\ cachedHeadings (snd (init (engine := HostRegExp.engine) Demo.world_bad)) !! "a.md"
     = None
  /\ cachedHeadings (snd (init (engine := HostRegExp.engine) Demo.world_bad)) !! "b.md"
     = None
  /\ treeEntry (snd (init (engine := HostRegExp.engine) Demo.world_bad)) Demo.a_md
     = Some (innerEl (Demo.host_item "a"))
  /\ fst (init (engine := HostRegExp.engine) Demo.world) = Ok tt
  /\ cachedHeadings (snd (init (engine := HostRegExp.engine) Demo.world)) !! "a.md"
     = Some (Some Demo.a_index)
  /\ cachedHeadings (snd (init (engine := HostRegExp.engine) Demo.world)) !! "b.md"
     = Some (Some []).
Proof. repeat split; vm_compute; reflexivity. Qed.

(** ** Highlight location *)

(** Without a focused document the request does nothing. *)
Lemma highlight_without_leaf (w : World) :
  lastActiveMarkdownLeaf w = None -> highlightFileWithHeading w = (Ok tt, w).
Proof. intros H. unfold highlightFileWithHeading. by rewrite H. Qed.

(** With an empty index for the focused file the file is revealed and
    nothing else happens. *)
Lemma highlight_empty_index (w : World) (leaf : WorkspaceLeaf) (file : TFile) :
  lastActiveMarkdownLeaf w = Some leaf -> view_file leaf = Some file ->
  cachedHeadings w !! name file = Some (Some []) ->
  highlightFileWithHeading w = (Ok tt, set_revealed (revealed w ++ [path file]) w).
Proof.
  intros Hl Hf Hc. unfold highlightFileWithHeading. by rewrite Hl, Hf, Hc.
Qed.

(** A focused file the index has no array for makes the request throw. *)
Lemma highlight_unindexed_throws (w : World) (leaf : WorkspaceLeaf) (file : TFile) :
  lastActiveMarkdownLeaf w = Some leaf -> view_file leaf = Some file ->
  mjoin (cachedHeadings w !! name file) = None ->
  highlightFileWithHeading w
  = (Throw (TypeError "Cannot read properties of undefined (reading 'length')"),
     set_revealed (revealed w ++ [path file]) w).
Proof.
  intros Hl Hf Hc. unfold highlightFileWithHeading. by rewrite Hl, Hf, Hc.
Qed.

(** C7, where the code departs from it.  Heading display is off, so
    [init] indexes nothing; a document is focused; the highlight request
    then throws a TypeError, after asking the host to reveal the file,
    where the claim asks for a silent no-op. *)
Theorem highlight_unindexed_file_throws :
  fst (init (engine := HostRegExp.engine) Demo.world_off) = Ok tt
  /\ lastActiveMarkdownLeaf (snd (init (engine := HostRegExp.engine) Demo.world_off))
     = Some (mkLeaf (Some Demo.a_md) 2)
  /\ cachedHeadings (snd (init (engine := HostRegExp.engine) Demo.world_off)) !! "a.md"
     = None
  /\ fst (highlightFileWithHeading (snd (init (engine := HostRegExp.engine) Demo.world_off)))
     = Throw (TypeError "Cannot read properties of undefined (reading 'length')")
  /\ revealed (snd (highlightFileWithHeading
                      (snd (init (engine := HostRegExp.engine) Demo.world_off))))
     = ["notes/a.md"].
Proof. repeat split; vm_compute; reflexivity. Qed.

(** ** Files without a metadata-cache entry *)



Section MissingCacheEntry.
Context `{engine : RegExpEngine}.


Lemma createClickableHeadings_keeps (file : TFile) (hs : list HeadingEntry)
    (w : World) :
  metadataCache (snd (createClickableHeadings file hs w)) = metadataCache w
  /\ cachedHeadings (snd (createClickableHeadings file hs w)) = cachedHeadings w.
Proof.
  unfold createClickableHeadings.
  destruct (Z.of_nat (length hs) =? 0); [done|].
  destruct (fileItems w) as [items|]; [|done].
  destruct (items !! path file) as [fi|]; [|done].
  destruct (getHeadingContainer (innerEl fi) (nextElementId w)) as [[item1 p] nid1].
  by destruct (fold_left _ hs _) as [[item3 nid3] drawn].
Qed.

Lemma createHeadingsForFile_keeps (file : TFile) (w : World) :
  metadataCache (snd (createHeadingsForFile file w)) = metadataCache w
  /\ cachedHeadings (snd (createHeadingsForFile file w)) = cachedHeadings w.
Proof.
  unfold createHeadingsForFile.
  destruct (metadataCache w !! path file) as [fc|]; [|done].
  destruct (Z.of_nat (length (regexArray (settings w))) =? 0).
  - unfold bind, ret.
    pose proof (createClickableHeadings_keeps file
                  (Array_sort by_line
                     (mappedHeadings (settings w) (default [] (headings fc)))) w) as H.
    by destruct (createClickableHeadings file _ w) as [[drawn|e] w1].
  - destruct (vault w !! path file) as [content|]; [|done].
    destruct (matchedHeadings (settings w) content) as [matched|e]; [|done].
    unfold bind, ret.
    pose proof (createClickableHeadings_keeps file
                  (Array_sort by_line
                     (mappedHeadings (settings w) (default [] (headings fc))
                      ++ matched)) w) as H.
    by destruct (createClickableHeadings file _ w) as [[drawn|e] w1].
Qed.

Lemma init_loop_step (file : TFile) (rest : list TFile) (w : World) :
  init_loop (file :: rest) w
  = match createHeadingsForFile file w with
    | (Ok headingsForFile, w') =>
        init_loop rest
          (set_cachedHeadings (<[name file := headingsForFile]> (cachedHeadings w')) w')
    | (Throw e, w') => (Throw e, w')
    end.
Proof.
  simpl. unfold bind.
  by destruct (createHeadingsForFile file w) as [[r|e] w'].
Qed.


End MissingCacheEntry.


(** * Further properties of the code *)

(** ** Cursor locator on any array *)

Lemma search_loop_in_bounds (arr : list HeadingEntry) (t start end_ : Z)
    (best : option HeadingEntry) :
  0 <= start -> end_ < Z.of_nat (length arr) ->
  (forall e, best = Some e -> e ∈ arr /\ line e <= t) ->
  exists r, search_loop arr t start end_ best = Ok r
            /\ forall e, r = Some e -> e ∈ arr /\ line e <= t.
Proof.
  funelim (search_loop arr t start end_ best); intros Hs0 Hend Hbest.
  - clear Heqcall Heq.
    assert (start <= (start + end_) / 2 <= end_) as Hmid
      by (split; [apply Z.div_le_lower_bound | apply Z.div_le_upper_bound]; lia).
    set (mid := (start + end_) / 2) in *.
    destruct (array_get_Some headingArray mid) as (h & Hget & Hh); [lia|].
    rewrite Hget.
    assert (h ∈ headingArray) as Hin by (apply list_elem_of_lookup; eauto).
    destruct (Z.eqb_spec (line h) target) as [Heq|Hne].
    + exists (Some h). split; [done|]. intros e [= <-]. split; [done|lia].
    + destruct (Z.ltb_spec (line h) target) as [Hlt|Hge].
      * apply (H h); [lia|lia|]. intros e [= <-]. split; [done|lia].
      * apply (H0 h); [lia|lia|done].
  - exists bestMatch. split; [done|]. exact Hbest.
Qed.

(** Sorted or not, the array is never read outside its bounds: the
    locator returns, and what it returns is an entry of the array whose
    line is not beyond the target. *)
Theorem findClosestLineOnOrAbove_never_throws (arr : list HeadingEntry) (t : Z) :
  exists r, findClosestLineOnOrAbove (Some arr) t = Ok r
            /\ forall e, r = Some e -> e ∈ arr /\ line e <= t.
Proof.
  unfold findClosestLineOnOrAbove.
  destruct (Z.eqb_spec (Z.of_nat (length arr)) 0) as [H0|H0].
  - exists None. split; [done|]. by intros.
  - apply search_loop_in_bounds; [lia|lia|]. by intros.
Qed.

(** ** Pattern matcher in closed form *)

Section PatternMatcherClosedForm.
Context `{engine : RegExpEngine}.

Lemma matchOne_all_compile (s : list RegexSetting) (ln : string) (index : Z)
    (acc : list HeadingEntry) :
  (forall rs, rs ∈ s -> is_Some (RegExp_new (pattern rs))) ->
  fold_left (matchOne ln index) s (Ok acc)
  = Ok (acc ++ flat_map (fun rs =>
              match RegExp_new (pattern rs) with
              | Some regex =>
                  match String_match ln regex with
                  | Some m => [ {| text := mjoin (groups m !! 0%nat);
                                   level := rs_level rs; line := index;
                                   uiElement := None |} ]
                  | None => []
                  end
              | None => []
              end) s).
Proof.
  revert acc. induction s as [|r s IH]; intros acc Hall; simpl.
  - by rewrite app_nil_r.
  - destruct (Hall r) as [regex Hr]; [apply list_elem_of_here|].
    rewrite Hr. destruct (String_match ln regex) as [m|].
    + rewrite entryOfMatch_second, IH, <- app_assoc; [done|].
      intros rs Hrs. apply Hall. by apply list_elem_of_further.
    + rewrite IH; [done|]. intros rs Hrs. apply Hall. by apply list_elem_of_further.
Qed.

Lemma matchLines_all_compile (s : HeadingPluginSettings) (lines : list string)
    (index : Z) (acc : list HeadingEntry) :
  (forall rs, rs ∈ regexArray s -> is_Some (RegExp_new (pattern rs))) ->
  matchLines s lines index (Ok acc) = Ok (acc ++ matchesOfLines s lines index).
Proof.
  intros Hall. revert index acc.
  induction lines as [|ln lines IH]; intros index acc; simpl.
  - by rewrite app_nil_r.
  - rewrite (matchOne_all_compile _ _ _ _ Hall), IH, <- app_assoc. done.
Qed.

Lemma matchesOfLine_elem (s : HeadingPluginSettings) (ln : string) (index : Z)
    (e : HeadingEntry) :
  e ∈ matchesOfLine s ln index <->
  exists rs regex m,
    rs ∈ regexArray s /\ RegExp_new (pattern rs) = Some regex
    /\ String_match ln regex = Some m
    /\ e = {| text := mjoin (groups m !! 0%nat); level := rs_level rs;
              line := index; uiElement := None |}.
Proof.
  unfold matchesOfLine. rewrite list_elem_of_In, in_flat_map. split.
  - intros (rs & Hrs & He). apply list_elem_of_In in Hrs.
    destruct (RegExp_new (pattern rs)) as [regex|] eqn:Hr; [|done].
    destruct (String_match ln regex) as [m|] eqn:Hm; [|done].
    destruct He as [<-|[]]. exists rs, regex, m. done.
  - intros (rs & regex & m & Hrs & Hr & Hm & ->).
    exists rs. split; [by apply list_elem_of_In|]. rewrite Hr, Hm. by left.
Qed.

Lemma matchesOfLines_elem (s : HeadingPluginSettings) (lines : list string)
    (index : Z) (e : HeadingEntry) :
  e ∈ matchesOfLines s lines index <->
  exists i ln, lines !! i = Some ln /\ e ∈ matchesOfLine s ln (index + Z.of_nat i).
Proof.
  revert index. induction lines as [|l lines IH]; intros index; simpl.
  - split; [by intros H%elem_of_nil|]. by intros (i & ln & Hi & _).
  - rewrite elem_of_app, IH. split.
    + intros [H|(i & ln & Hi & H)].
      * exists 0%nat, l. split; [done|]. by rewrite Z.add_0_r.
      * exists (S i), ln. split; [done|].
        by replace (index + Z.of_nat (S i)) with (index + 1 + Z.of_nat i) by lia.
    + intros ([|i] & ln & Hi & H); simpl in Hi.
      * injection Hi as ->. left. by rewrite Z.add_0_r in H.
      * right. exists i, ln. split; [done|].
        by replace (index + 1 + Z.of_nat i) with (index + Z.of_nat (S i)) by lia.
Qed.

Lemma matchesOfLine_line (s : HeadingPluginSettings) (ln : string) (index : Z) :
  Forall (fun e => line e = index) (matchesOfLine s ln index).
Proof.
  apply Forall_forall. intros e He.
  apply matchesOfLine_elem in He as (rs & regex & m & _ & _ & _ & ->). done.
Qed.

Lemma matchesOfLines_lower (s : HeadingPluginSettings) (lines : list string)
    (index : Z) :
  Forall (fun e => index <= line e) (matchesOfLines s lines index).
Proof.
  apply Forall_forall. intros e He.
  apply matchesOfLines_elem in He as (i & ln & _ & He).
  apply matchesOfLine_elem in He as (rs & regex & m & _ & _ & _ & ->). simpl. lia.
Qed.

Lemma sorted_after_one_line (l1 l2 : list HeadingEntry) (index : Z) :
  Forall (fun e => line e = index) l1 ->
  Forall (fun e => index <= line e) l2 ->
  sorted_by_line l2 -> sorted_by_line (l1 ++ l2).
Proof.
  unfold sorted_by_line. intros H1 H2 HS.
  induction H1 as [|e l He Hl IH]; simpl; [done|].
  constructor; [done|]. rewrite map_app. apply Forall_app. split.
  - apply Forall_fmap. eapply Forall_impl; [exact Hl|].
    intros x Hx. simpl in *. lia.
  - apply Forall_fmap. eapply Forall_impl; [exact H2|].
    intros x Hx. simpl in *. lia.
Qed.

Lemma matchesOfLines_sorted (s : HeadingPluginSettings) (lines : list string)
    (index : Z) :
  sorted_by_line (matchesOfLines s lines index).
Proof.
  revert index.
  induction lines as [|ln lines IH]; intros index; simpl; [constructor|].
  apply (sorted_after_one_line _ _ index).
  - apply matchesOfLine_line.
  - eapply Forall_impl; [apply (matchesOfLines_lower s lines (index + 1))|].
    intros x Hx. simpl in *. lia.
  - apply IH.
Qed.

(** The matcher returns entries exactly when every configured pattern
    compiles, whatever the text. *)
Theorem matchedHeadings_returns_iff_patterns_compile (s : HeadingPluginSettings)
    (content : string) :
  (exists matched, matchedHeadings s content = Ok matched)
  <-> forall rs, rs ∈ regexArray s -> is_Some (RegExp_new (pattern rs)).
Proof.
  split.
  - intros (matched & Hm) rs Hrs.
    destruct (RegExp_new (pattern rs)) as [regex|] eqn:Hr; [eauto|].
    destruct (matchedHeadings_malformed s content rs Hrs Hr) as (msg & Hthrow).
    congruence.
  - intros Hall. eexists. unfold matchedHeadings.
    by rewrite (matchLines_all_compile _ _ _ _ Hall).
Qed.

Lemma filter_all {A} (P : A -> Prop) `{!forall x, Decision (P x)} (l : list A) :
  Forall P l -> filter P l = l.
Proof.
  induction 1 as [|x l Hx _ IH]; [done|].
  rewrite filter_cons, IH. by case_decide.
Qed.

Lemma filter_none {A} (P : A -> Prop) `{!forall x, Decision (P x)} (l : list A) :
  Forall (fun x => ~ P x) l -> filter P l = [].
Proof.
  induction 1 as [|x l Hx _ IH]; [done|].
  rewrite filter_cons, IH. by case_decide.
Qed.

(** The entries of one line, picked out of the closed form. *)
Lemma matchesOfLines_filter (s : HeadingPluginSettings) (lines : list string)
    (index : Z) (i : nat) :
  filter (fun e => line e = index + Z.of_nat i) (matchesOfLines s lines index)
  = match lines !! i with
    | Some ln => matchesOfLine s ln (index + Z.of_nat i)
    | None => []
    end.
Proof.
  revert index i. induction lines as [|l lines IH]; intros index i; [done|].
  simpl matchesOfLines. rewrite filter_app.
  destruct i as [|i].
  - simpl. rewrite Z.add_0_r. rewrite filter_all by apply matchesOfLine_line.
    rewrite filter_none; [by rewrite app_nil_r|].
    eapply Forall_impl; [apply (matchesOfLines_lower s lines (index + 1))|].
    intros x Hx. simpl in *. lia.
  - rewrite filter_none.
    2:{ eapply Forall_impl; [apply (matchesOfLine_line s l index)|].
        intros x Hx. simpl in *. lia. }
    replace (index + Z.of_nat (S i)) with (index + 1 + Z.of_nat i) by lia.
    rewrite IH. done.
Qed.

(** What the matcher returns is the closed form [matchesOfLines]: line by
    line, and within a line pattern by pattern in the order of
    [regexArray], exactly one entry for each pattern that matches the
    line and none for one that does not, with the line's index counted
    from 0, the pattern's level and element 1 of the match array as text.
    So the entries of line [i] are exactly [matchesOfLine] of that line,
    no entry has a line that is not an index of the file's lines, an
    entry is in the result exactly when a line and a pattern matching it
    account for it, and the result is sorted by line already. *)
Theorem matchedHeadings_one_entry_per_match (s : HeadingPluginSettings)
    (content : string) (matched : list HeadingEntry) :
  matchedHeadings s content = Ok matched ->
  matched = matchesOfLines s (split_on newline content) 0
  /\ (forall i ln,
        split_on newline content !! i = Some ln ->
        filter (fun e => line e = Z.of_nat i) matched
        = flat_map (fun rs =>
                      match RegExp_new (pattern rs) with
                      | Some regex =>
                          match String_match ln regex with
                          | Some m => [ {| text := mjoin (groups m !! 0%nat);
                                           level := rs_level rs;
                                           line := Z.of_nat i;
                                           uiElement := None |} ]
                          | None => []
                          end
                      | None => []
                      end) (regexArray s))
  /\ (forall n,
        n < 0 \/ Z.of_nat (length (split_on newline content)) <= n ->
        filter (fun e => line e = n) matched = [])
  /\ sorted_by_line matched
  /\ forall e,
       e ∈ matched <->
       exists i ln rs regex m,
         split_on newline content !! i = Some ln
         /\ rs ∈ regexArray s
         /\ RegExp_new (pattern rs) = Some regex
         /\ String_match ln regex = Some m
         /\ e = {| text := mjoin (groups m !! 0%nat); level := rs_level rs;
                   line := Z.of_nat i; uiElement := None |}.
Proof.
  intros Hm.
  assert (forall rs, rs ∈ regexArray s -> is_Some (RegExp_new (pattern rs))) as Hall.
  { apply (matchedHeadings_returns_iff_patterns_compile s content). eauto. }
  unfold matchedHeadings in Hm.
  rewrite (matchLines_all_compile _ _ _ _ Hall) in Hm. simpl in Hm.
  injection Hm as <-. split; [done|]. split; [|split; [|split]].
  - intros i ln Hi.
    pose proof (matchesOfLines_filter s (split_on newline content) 0 i) as Hf.
    rewrite Hi in Hf. simpl in Hf. exact Hf.
  - intros n Hn. apply filter_none, Forall_forall. intros e He Hline.
    apply matchesOfLines_elem in He as (i & ln & Hi & He).
    apply lookup_lt_Some in Hi.
    apply matchesOfLine_elem in He as (rs & regex & m & _ & _ & _ & ->).
    simpl in Hline. lia.
  - apply matchesOfLines_sorted.
  - intros e. rewrite matchesOfLines_elem. split.
    + intros (i & ln & Hi & He). apply matchesOfLine_elem in He
        as (rs & regex & m & Hrs & Hr & Hmt & ->).
      exists i, ln, rs, regex, m. done.
    + intros (i & ln & rs & regex & m & Hi & Hrs & Hr & Hmt & ->).
      exists i, ln. split; [done|]. apply matchesOfLine_elem.
      exists rs, regex, m. done.
Qed.
End PatternMatcherClosedForm.

Lemma matchedHeadings_one_entry_per_match_witness :
  matchedHeadings (engine := HostRegExp.engine) DEFAULT_SETTINGS Demo.a_text
  = Ok [ mkHeading (Some "Important") 7 1 None; mkHeading (Some "Also") 7 4 None ]
  /\ [ mkHeading (Some "Important") 7 1 None; mkHeading (Some "Also") 7 4 None ]
     = matchesOfLines (engine := HostRegExp.engine) DEFAULT_SETTINGS
                      (split_on newline Demo.a_text) 0
  /\ (forall i ln,
        split_on newline Demo.a_text !! i = Some ln ->
        filter (fun e => line e = Z.of_nat i)
               [ mkHeading (Some "Important") 7 1 None; mkHeading (Some "Also") 7 4 None ]
        = flat_map (fun rs =>
                      match RegExp_new (RegExpEngine := HostRegExp.engine) (pattern rs) with
                      | Some regex =>
                          match String_match (RegExpEngine := HostRegExp.engine)
                                             ln regex with
                          | Some m => [ {| text := mjoin (groups m !! 0%nat);
                                           level := rs_level rs;
                                           line := Z.of_nat i;
                                           uiElement := None |} ]
                          | None => []
                          end
                      | None => []
                      end) (regexArray DEFAULT_SETTINGS))
  /\ (forall n,
        n < 0 \/ Z.of_nat (length (split_on newline Demo.a_text)) <= n ->
        filter (fun e => line e = n)
               [ mkHeading (Some "Important") 7 1 None; mkHeading (Some "Also") 7 4 None ]
        = [])
  /\ sorted_by_line [ mkHeading (Some "Important") 7 1 None;
                      mkHeading (Some "Also") 7 4 None ]
  /\ forall e,
       e ∈ [ mkHeading (Some "Important") 7 1 None; mkHeading (Some "Also") 7 4 None ]
       <->
       exists i ln rs regex m,
         split_on newline Demo.a_text !! i = Some ln
         /\ rs ∈ regexArray DEFAULT_SETTINGS
         /\ RegExp_new (RegExpEngine := HostRegExp.engine) (pattern rs) = Some regex
         /\ String_match (RegExpEngine := HostRegExp.engine) ln regex = Some m
         /\ e = {| text := mjoin (groups m !! 0%nat); level := rs_level rs;
                   line := Z.of_nat i; uiElement := None |}.
Proof.
  assert (matchedHeadings (engine := HostRegExp.engine) DEFAULT_SETTINGS Demo.a_text
          = Ok [ mkHeading (Some "Important") 7 1 None;
                 mkHeading (Some "Also") 7 4 None ]) as H
    by (vm_compute; reflexivity).
  split; [exact H|].
  exact (matchedHeadings_one_entry_per_match (engine := HostRegExp.engine)
           DEFAULT_SETTINGS Demo.a_text _ H).
Defined.

(** ** Structural headings: order and levels without a flag *)

(** The structural entries are a sublist of the host's headings, in the
    host's order; a heading whose level is not one of 1 to 6 has no flag
    and is always kept; with all six flags on nothing is dropped. *)
Theorem mappedHeadings_order_and_unflagged (s : HeadingPluginSettings)
    (hs : list HeadingCache) :
  mappedHeadings s hs `sublist_of` (entryOfHeading <$> hs)
  /\ (forall h, h ∈ hs -> hc_level h < 1 \/ 6 < hc_level h ->
        entryOfHeading h ∈ mappedHeadings s hs)
  /\ (showHeading1 s = true -> showHeading2 s = true -> showHeading3 s = true ->
      showHeading4 s = true -> showHeading5 s = true -> showHeading6 s = true ->
      mappedHeadings s hs = entryOfHeading <$> hs).
Proof.
  rewrite mappedHeadings_filter. split_and!.
  - apply fmap_sublist, sublist_filter.
  - intros h Hh Hout. apply list_elem_of_fmap. exists h. split; [done|].
    apply list_elem_of_filter. split; [|done]. unfold level_flag.
    destruct (Z.eqb_spec (hc_level h) 1); [lia|].
    destruct (Z.eqb_spec (hc_level h) 2); [lia|].
    destruct (Z.eqb_spec (hc_level h) 3); [lia|].
    destruct (Z.eqb_spec (hc_level h) 4); [lia|].
    destruct (Z.eqb_spec (hc_level h) 5); [lia|].
    destruct (Z.eqb_spec (hc_level h) 6); [lia|]. done.
  - intros H1 H2 H3 H4 H5 H6. f_equal.
    induction hs as [|h hs IH]; [done|].
    rewrite filter_cons. rewrite IH.
    case_decide as Hflag; [done|]. exfalso. apply Hflag. unfold level_flag.
    rewrite H1, H2, H3, H4, H5, H6. by repeat case_match.
Qed.

(** ** What a build changes *)

Lemma getHeadingContainer_next (item item1 : Element) (nid nid1 : ElementRef)
    (p : Path) :
  getHeadingContainer item nid = (item1, p, nid1) -> (nid <= nid1)%nat.
Proof.
  unfold getHeadingContainer.
  destruct (querySelector container_class item); intros [= <- <- <-]; lia.
Qed.

(** The world after a redraw: as before, or with the one tree entry
    redrawn and element identities used up. *)
Lemma createClickableHeadings_world (file : TFile) (hs : list HeadingEntry)
    (w w' : World) (r : Result (list HeadingEntry)) :
  createClickableHeadings file hs w = (r, w') ->
  (w' = w /\ (forall d ds, r <> Ok (d :: ds)))
  \/ (exists items fi item' n d ds,
        r = Ok (d :: ds)
        /\ fileItems w = Some items /\ items !! path file = Some fi
        /\ (nextElementId w <= n)%nat
        /\ w' = set_nextElementId n
                  (set_fileItems
                     (Some (<[path file := set_innerEl item' fi]> items)) w)).
Proof.
  destruct hs as [|h hs].
  { intros [= <- <-]. left. done. }
  destruct (fileItems w) as [items|] eqn:Hitems.
  2:{ unfold createClickableHeadings. rewrite Hitems.
      destruct (Z.eqb_spec (Z.of_nat (length (h :: hs))) 0) as [H0|_];
        [simpl in H0; lia|].
      intros [= <- <-]; by left. }
  destruct (items !! path file) as [fi|] eqn:Hfi.
  2:{ unfold createClickableHeadings. rewrite Hitems, Hfi.
      destruct (Z.eqb_spec (Z.of_nat (length (h :: hs))) 0) as [H0|_];
        [simpl in H0; lia|].
      intros [= <- <-]; by left. }
  rewrite (createClickableHeadings_draws file (h :: hs) w items fi); [|done..].
  destruct (getHeadingContainer (innerEl fi) (nextElementId w))
    as [[item1 p] nid1] eqn:Hg.
  apply getHeadingContainer_next in Hg.
  intros [= <- <-]. right. eexists items, fi, _, _, _, _.
  split; [reflexivity|]. split; [done|]. split; [done|]. split; [|reflexivity]. lia.
Qed.

Section BuildFrame.
Context `{engine : RegExpEngine}.

Lemma createHeadingsForFile_world (file : TFile) (w w' : World)
    (r : Result (option (list HeadingEntry))) :
  createHeadingsForFile file w = (r, w') ->
  (w' = w /\ (forall d ds, r <> Ok (Some (d :: ds))))
  \/ (exists items fi item' n d ds,
        r = Ok (Some (d :: ds))
        /\ fileItems w = Some items /\ items !! path file = Some fi
        /\ (nextElementId w <= n)%nat
        /\ w' = set_nextElementId n
                  (set_fileItems
                     (Some (<[path file := set_innerEl item' fi]> items)) w)).
Proof.
  assert (forall hs,
    (let* drawn := createClickableHeadings file hs in ret (Some drawn)) w = (r, w') ->
    (w' = w /\ (forall d ds, r <> Ok (Some (d :: ds))))
    \/ (exists items fi item' n d ds,
          r = Ok (Some (d :: ds))
          /\ fileItems w = Some items /\ items !! path file = Some fi
          /\ (nextElementId w <= n)%nat
          /\ w' = set_nextElementId n
                    (set_fileItems
                       (Some (<[path file := set_innerEl item' fi]> items)) w))) as Hdraw.
  { intros hs. unfold bind, ret.
    destruct (createClickableHeadings file hs w) as [r0 w0] eqn:Hc.
    apply createClickableHeadings_world in Hc
      as [[-> Hno]|(items & fi & item' & n & d & ds & -> & Hi & Hf & Hn & ->)].
    - destruct r0 as [drawn|e]; intros [= <- <-]; left; split; try done.
      intros d ds [= ->]. by eapply Hno.
    - intros [= <- <-]. right. eexists items, fi, item', n, d, ds. done. }
  unfold createHeadingsForFile.
  destruct (metadataCache w !! path file) as [fc|].
  2:{ intros [= <- <-]. by left. }
  destruct (Z.of_nat (length (regexArray (settings w))) =? 0); [apply Hdraw|].
  destruct (vault w !! path file) as [content|].
  2:{ intros [= <- <-]. by left. }
  destruct (matchedHeadings (settings w) content) as [matched|e]; [apply Hdraw|].
  intros [= <- <-]. by left.
Qed.

(** A build that throws, or returns nothing or an empty index, leaves the
    world exactly as it was: nothing is half drawn. *)
Theorem createHeadingsForFile_all_or_nothing (file : TFile) (w w' : World)
    (r : Result (option (list HeadingEntry))) :
  createHeadingsForFile file w = (r, w') ->
  (forall d ds, r <> Ok (Some (d :: ds))) ->
  w' = w.
Proof.
  intros Hb Hno. apply createHeadingsForFile_world in Hb
    as [[-> _]|(items & fi & item' & n & d & ds & -> & _)]; [done|].
  by destruct (Hno d ds).
Qed.

(** Whatever a build does, it touches nothing but the tree entry of its
    file and the supply of element identities: settings, focus, heading
    index, metadata cache, vault, file list and timers stay, every other
    tree entry stays, the entry keeps its height record, and identities
    are only used up. *)
Theorem createHeadingsForFile_frame (file : TFile) (w : World) :
  let w' := snd (createHeadingsForFile file w) in
  settings w' = settings w
  /\ lastActiveMarkdownLeaf w' = lastActiveMarkdownLeaf w
  /\ cachedHeadings w' = cachedHeadings w
  /\ metadataCache w' = metadataCache w
  /\ vault w' = vault w
  /\ markdownFiles w' = markdownFiles w
  /\ marginMultiplierCss w' = marginMultiplierCss w
  /\ revealed w' = revealed w
  /\ timers w' = timers w
  /\ (nextElementId w <= nextElementId w')%nat
  /\ (forall k, k <> path file ->
        fileItems w' ≫= (fun items => items !! k)
        = fileItems w ≫= (fun items => items !! k))
  /\ info <$> (fileItems w' ≫= (fun items => items !! path file))
     = info <$> (fileItems w ≫= (fun items => items !! path file)).
Proof.
  destruct (createHeadingsForFile file w) as [r w'] eqn:Hb. cbn [snd].
  apply createHeadingsForFile_world in Hb
    as [[-> _]|(items & fi & item' & n & d & ds & _ & Hi & Hf & Hn & ->)].
  - split_and!; try done.
  - cbn [settings lastActiveMarkdownLeaf cachedHeadings metadataCache vault
         markdownFiles marginMultiplierCss revealed timers nextElementId fileItems
         set_nextElementId set_fileItems].
    split_and!; try done.
    + intros k Hk. rewrite Hi. simpl. by rewrite lookup_insert_ne.
    + rewrite Hi. simpl. by rewrite lookup_insert_eq, Hf.
Qed.

Lemma createClickableHeadings_vault (file : TFile) (hs : list HeadingEntry)
    (v : gmap string string) (w : World) :
  createClickableHeadings file hs (set_vault v w)
  = (fst (createClickableHeadings file hs w),
     set_vault v (snd (createClickableHeadings file hs w))).
Proof.
  unfold createClickableHeadings.
  destruct (Z.of_nat (length hs) =? 0); [done|].
  cbn [fileItems set_vault nextElementId].
  destruct (fileItems w) as [items|]; [|done].
  destruct (items !! path file) as [fi|]; [|done].
  destruct (getHeadingContainer (innerEl fi) (nextElementId w)) as [[item1 p] nid1].
  replace (getMarginMultiplier (set_vault v w)) with (getMarginMultiplier w) by done.
  by destruct (fold_left _ hs _) as [[item3 nid3] drawn].
Qed.

(** Without patterns the file is not read: the build gives the same
    result and the same trees whatever the vault holds, even nothing, and
    a returned index is the sorted structural entries. *)
Theorem createHeadingsForFile_no_pattern_no_read (file : TFile) (w : World)
    (v : gmap string string) :
  regexArray (settings w) = [] ->
  createHeadingsForFile file (set_vault v w)
  = (fst (createHeadingsForFile file w),
     set_vault v (snd (createHeadingsForFile file w)))
  /\ forall hs fc,
       metadataCache w !! path file = Some fc ->
       fst (createHeadingsForFile file w) = Ok (Some hs) ->
       set_uiElement None <$> hs
       = Array_sort by_line (mappedHeadings (settings w) (default [] (headings fc))).
Proof.
  intros Hnil. split.
  - unfold createHeadingsForFile.
    cbn [metadataCache settings vault set_vault]. rewrite Hnil. simpl length.
    destruct (metadataCache w !! path file) as [fc|]; [|done].
    cbn [Z.of_nat Z.eqb]. unfold bind, ret. rewrite createClickableHeadings_vault.
    by destruct (createClickableHeadings file _ w) as [[drawn|e] w1].
  - intros hs fc Hfc Hr.
    destruct (createHeadingsForFile file w) as [r w'] eqn:Hb. simpl in Hr. subst r.
    apply createHeadingsForFile_built in Hb as (fc' & matched & Hfc' & Hpat & Hd).
    rewrite Hfc in Hfc'. injection Hfc' as <-.
    rewrite (built_erased _ _ _ _ _ _ Hpat Hd).
    destruct Hpat as [[_ ->]|[Hne _]]; [by rewrite app_nil_r|done].
Qed.
End BuildFrame.

Lemma createHeadingsForFile_all_or_nothing_witness :
  createHeadingsForFile (engine := HostRegExp.engine) Demo.a_md Demo.world_bad
  = (Throw (SyntaxError "Invalid regular expression: (TODO"),
     snd (createHeadingsForFile (engine := HostRegExp.engine) Demo.a_md Demo.world_bad))
  /\ (forall d ds,
        @Throw (option (list HeadingEntry))
               (SyntaxError "Invalid regular expression: (TODO")
        <> Ok (Some (d :: ds)))
  /\ snd (createHeadingsForFile (engine := HostRegExp.engine) Demo.a_md Demo.world_bad)
     = Demo.world_bad.
Proof.
  assert (createHeadingsForFile (engine := HostRegExp.engine) Demo.a_md Demo.world_bad
          = (Throw (SyntaxError "Invalid regular expression: (TODO"),
             snd (createHeadingsForFile (engine := HostRegExp.engine)
                                        Demo.a_md Demo.world_bad))) as H1
    by (vm_compute; reflexivity).
  assert (forall d ds,
            @Throw (option (list HeadingEntry))
                   (SyntaxError "Invalid regular expression: (TODO")
            <> Ok (Some (d :: ds))) as H2 by discriminate.
  split; [exact H1|]. split; [exact H2|].
  exact (createHeadingsForFile_all_or_nothing (engine := HostRegExp.engine)
           Demo.a_md Demo.world_bad _ _ H1 H2).
Defined.

Lemma createHeadingsForFile_no_pattern_no_read_witness :
  regexArray (settings Demo.world_plain) = []
  /\ createHeadingsForFile (engine := HostRegExp.engine) Demo.a_md
       (set_vault ∅ Demo.world_plain)
     = (fst (createHeadingsForFile (engine := HostRegExp.engine) Demo.a_md
                                   Demo.world_plain),
        set_vault ∅ (snd (createHeadingsForFile (engine := HostRegExp.engine)
                                                Demo.a_md Demo.world_plain)))
  /\ forall hs fc,
       metadataCache Demo.world_plain !! path Demo.a_md = Some fc ->
       fst (createHeadingsForFile (engine := HostRegExp.engine) Demo.a_md
                                  Demo.world_plain) = Ok (Some hs) ->
       set_uiElement None <$> hs
       = Array_sort by_line
           (mappedHeadings (settings Demo.world_plain) (default [] (headings fc))).
Proof.
  assert (regexArray (settings Demo.world_plain) = []) as H by reflexivity.
  split; [exact H|].
  exact (createHeadingsForFile_no_pattern_no_read (engine := HostRegExp.engine)
           Demo.a_md Demo.world_plain ∅ H).
Defined.

(** ** Back-references and missing tree entries *)

Lemma getHeadingContainer_found (item item1 : Element) (nid nid1 : ElementRef)
    (p : Path) :
  getHeadingContainer item nid = (item1, p, nid1) ->
  querySelector container_class item1 = Some p.
Proof.
  unfold getHeadingContainer.
  destruct (querySelector container_class item) as [p0|] eqn:Hq.
  - by intros [= <- <- <-].
  - intros [= <- <- <-].
    unfold querySelector in *. rewrite first_in_None in Hq.
    destruct item as [j cl t m l ch]. unfold appendChild. simpl in *.
    apply (first_in_intro _ _ (length ch) (mkElement nid [container_class] "" "" [] [])).
    + by rewrite lookup_app_r, Nat.sub_diag.
    + done.
    + intros k y Hk Hy. rewrite lookup_app_l in Hy by done.
      apply Hq. apply list_elem_of_lookup. eauto.
Qed.

Lemma headingItems_ids (file : TFile) (mult : Z) (hs : list HeadingEntry)
    (nid : ElementRef) :
  el_id <$> headingItems file mult hs nid = seq nid (length hs).
Proof.
  revert nid. induction hs as [|h hs IH]; intros nid; simpl; [done|].
  by rewrite IH.
Qed.

Lemma drawnEntries_refs (hs : list HeadingEntry) (nid : ElementRef) :
  uiElement <$> drawnEntries hs nid = Some <$> seq nid (length hs).
Proof.
  revert nid. induction hs as [|h hs IH]; intros nid; simpl; [done|].
  by rewrite IH.
Qed.

(** After a redraw with entries, the entries point at their nodes: the
    container found in the tree entry has one child per entry, the
    children carry consecutive identities none of which was in use, and
    entry [i] holds the identity of child [i]. *)
Theorem createClickableHeadings_backrefs (file : TFile) (hs : list HeadingEntry)
    (w : World) (items : gmap string FileItem) (fi : FileItem) :
  hs <> [] ->
  fileItems w = Some items ->
  items !! path file = Some fi ->
  exists drawn w' item' p container first,
    createClickableHeadings file hs w = (Ok drawn, w')
    /\ fileItems w' = Some (<[path file := set_innerEl item' fi]> items)
    /\ querySelector container_class item' = Some p
    /\ getAt p item' = Some container
    /\ (nextElementId w <= first)%nat
    /\ nextElementId w' = (first + length hs)%nat
    /\ el_id <$> el_children container = seq first (length hs)
    /\ uiElement <$> drawn = Some <$> (el_id <$> el_children container).
Proof.
  intros Hne Hitems Hfi.
  rewrite (createClickableHeadings_draws file hs w items fi Hne Hitems Hfi).
  destruct (getHeadingContainer (innerEl fi) (nextElementId w))
    as [[item1 p] nid1] eqn:Hg.
  pose proof (getHeadingContainer_next _ _ _ _ _ Hg) as Hnext.
  apply getHeadingContainer_found in Hg as Hq.
  destruct (querySelector_getAt _ _ _ Hq) as (i & p' & x & -> & Hx & Hcx).
  eexists _, _, _, (i :: p'), _, nid1.
  split; [reflexivity|]. split; [reflexivity|]. split.
  { apply querySelector_modifyAt; [|done]. intros y Hy.
    by rewrite has_class_set_children. }
  split; [by rewrite getAt_modifyAt, Hx|].
  split; [done|]. split; [done|].
  rewrite el_children_set, headingItems_ids. split; [done|].
  apply drawnEntries_refs.
Qed.

Lemma createClickableHeadings_backrefs_witness :
  Demo.two_headings <> [] /\
  fileItems Demo.world = Some Demo.items /\
  Demo.items !! path Demo.a_md = Some (Demo.host_item "a") /\
  exists drawn w' item' p container first,
    createClickableHeadings Demo.a_md Demo.two_headings Demo.world = (Ok drawn, w')
    /\ fileItems w'
       = Some (<[path Demo.a_md := set_innerEl item' (Demo.host_item "a")]> Demo.items)
    /\ querySelector container_class item' = Some p
    /\ getAt p item' = Some container
    /\ (nextElementId Demo.world <= first)%nat
    /\ nextElementId w' = (first + length Demo.two_headings)%nat
    /\ el_id <$> el_children container = seq first (length Demo.two_headings)
    /\ uiElement <$> drawn = Some <$> (el_id <$> el_children container).
Proof.
  assert (Demo.two_headings <> []) as H1 by discriminate.
  assert (fileItems Demo.world = Some Demo.items) as H2 by reflexivity.
  assert (Demo.items !! path Demo.a_md = Some (Demo.host_item "a")) as H3
    by (vm_compute; reflexivity).
  split; [exact H1|]. split; [exact H2|]. split; [exact H3|].
  exact (createClickableHeadings_backrefs Demo.a_md Demo.two_headings Demo.world
           Demo.items (Demo.host_item "a") H1 H2 H3).
Defined.

Lemma Array_sort_nil {A} (cmp : A -> A -> Z) (l : list A) :
  Array_sort cmp l = [] <-> l = [].
Proof.
  split; [|by intros ->]. intros H.
  apply Permutation_nil_r. rewrite <- H. by rewrite Array_sort_perm.
Qed.

Section MissingTreeEntry.
Context `{engine : RegExpEngine}.

(** A build whose metadata entry and pattern entries are known runs the
    redraw on their sorted concatenation. *)
Lemma createHeadingsForFile_run (file : TFile) (w : World) (fc : CachedMetadata)
    (matched : list HeadingEntry) :
  metadataCache w !! path file = Some fc ->
  pattern_part w file matched ->
  createHeadingsForFile file w
  = (let* drawn :=
       createClickableHeadings file
         (Array_sort by_line
            (mappedHeadings (settings w) (default [] (headings fc)) ++ matched)) in
     ret (Some drawn)) w.
Proof.
  intros Hfc Hpat. unfold createHeadingsForFile. rewrite Hfc.
  destruct Hpat as [[Hnil ->]|(Hne & content & Hv & Hm)].
  - rewrite Hnil. simpl. by rewrite app_nil_r.
  - destruct (Z.eqb_spec (Z.of_nat (length (regexArray (settings w)))) 0) as [H0|_].
    { destruct (regexArray (settings w)); [done|simpl in H0; lia]. }
    by rewrite Hv, Hm.
Qed.

(** A file without a tree entry can be built only if it has nothing to
    show: with no entries the build returns the empty index and needs no
    tree; with at least one it throws a TypeError and changes nothing. *)
Theorem createHeadingsForFile_without_tree_entry (file : TFile) (w : World)
    (fc : CachedMetadata) (matched : list HeadingEntry)
    (items : gmap string FileItem) :
  metadataCache w !! path file = Some fc ->
  pattern_part w file matched ->
  fileItems w = Some items ->
  items !! path file = None ->
  createHeadingsForFile file w
  = if decide (mappedHeadings (settings w) (default [] (headings fc)) ++ matched = [])
    then (Ok (Some []), w)
    else (Throw (TypeError "Cannot read properties of undefined (reading 'innerEl')"), w).
Proof.
  intros Hfc Hpat Hitems Hnone.
  rewrite (createHeadingsForFile_run file w fc matched Hfc Hpat).
  unfold bind, ret, createClickableHeadings.
  case_decide as Hall.
  - rewrite Hall. done.
  - destruct (Array_sort by_line _) as [|h hs] eqn:Hs.
    { apply Array_sort_nil in Hs. done. }
    destruct (Z.eqb_spec (Z.of_nat (length (h :: hs))) 0) as [H0|_];
      [simpl in H0; lia|].
    by rewrite Hitems, Hnone.
Qed.
End MissingTreeEntry.

Lemma createHeadingsForFile_without_tree_entry_witness :
  metadataCache Demo.world_d !! path Demo.d_md
    = Some (mkMetadata (Some [mkHeadingCache "Only" 1 0]))
  /\ pattern_part (engine := HostRegExp.engine) Demo.world_d Demo.d_md []
  /\ fileItems Demo.world_d = Some Demo.items
  /\ Demo.items !! path Demo.d_md = None
  /\ createHeadingsForFile (engine := HostRegExp.engine) Demo.d_md Demo.world_d
     = if decide (mappedHeadings (settings Demo.world_d)
                    (default [] (headings (mkMetadata (Some [mkHeadingCache "Only" 1 0]))))
                  ++ [] = [])
       then (Ok (Some []), Demo.world_d)
       else (Throw (TypeError "Cannot read properties of undefined (reading 'innerEl')"),
             Demo.world_d).
Proof.
  assert (metadataCache Demo.world_d !! path Demo.d_md
          = Some (mkMetadata (Some [mkHeadingCache "Only" 1 0]))) as H1
    by (vm_compute; reflexivity).
  assert (pattern_part (engine := HostRegExp.engine) Demo.world_d Demo.d_md []) as H2
    by (left; split; reflexivity).
  assert (fileItems Demo.world_d = Some Demo.items) as H3 by reflexivity.
  assert (Demo.items !! path Demo.d_md = None) as H4 by (vm_compute; reflexivity).
  split; [exact H1|]. split; [exact H2|]. split; [exact H3|]. split; [exact H4|].
  exact (createHeadingsForFile_without_tree_entry (engine := HostRegExp.engine)
           Demo.d_md Demo.world_d _ [] Demo.items H1 H2 H3 H4).
Defined.

(** ** Clearing the headings *)

Lemma clearItem_cleared (item : Element) (nid : ElementRef) :
  headingNodes (fst (clearItem item nid)) = Some []
  /\ ((count_below container_class item <= 1)%nat ->
      count_below container_class (fst (clearItem item nid)) = 1%nat)
  /\ (nid <= snd (clearItem item nid))%nat.
Proof.
  unfold clearItem.
  destruct (getHeadingContainer item nid) as [[item1 p] nid1] eqn:Hg. cbn [fst snd].
  pose proof (getHeadingContainer_next _ _ _ _ _ Hg) as Hnext.
  pose proof (getHeadingContainer_found _ _ _ _ _ Hg) as Hq.
  destruct (querySelector_getAt _ _ _ Hq) as (i & p' & x & -> & Hx & Hcx).
  split_and!; [|  |done].
  - unfold headingNodes.
    rewrite (querySelector_modifyAt container_class replaceChildren (i :: p') item1);
      [|by intros y Hy; unfold replaceChildren; rewrite has_class_set_children|done].
    simpl. change (modifyAt (i :: p') replaceChildren item1)
      with (modifyAt (i :: p') replaceChildren item1).
    pose proof (getAt_modifyAt (i :: p') replaceChildren item1) as Hget.
    simpl in Hget. rewrite Hget. simpl in Hx. rewrite Hx. simpl.
    unfold replaceChildren. by rewrite el_children_set.
  - intros Hcount.
    apply getHeadingContainer_unique in Hg
      as (_ & Hone & i' & p'' & x' & [= <- <-] & Hx' & Hcx' & Hold); [|done].
    by destruct (draw_keeps_container item1 x' i p' [] Hq Hone Hx' Hcx' Hold eq_refl)
      as (_ & Hone' & _).
Qed.

Lemma clearHeadings_fold (keys : list string) (items items' : gmap string FileItem)
    (nid nid' : ElementRef) :
  NoDup keys ->
  fold_left clearHeadingsOf keys (items, nid) = (items', nid') ->
  (nid <= nid')%nat
  /\ (forall k, k ∉ keys -> items' !! k = items !! k)
  /\ (forall k, items !! k = None -> items' !! k = None)
  /\ (forall k obj, k ∈ keys -> items !! k = Some obj ->
        exists n, items' !! k
                  = Some (set_innerEl (fst (clearItem (innerEl obj) n)) obj)).
Proof.
  intros Hnd. revert items nid.
  induction Hnd as [|a keys Ha Hnd IH]; intros items nid Hfold; simpl in Hfold.
  - injection Hfold as <- <-. split_and!; try done.
    intros k obj Hk. by apply elem_of_nil in Hk.
  - destruct (items !! a) as [obj|] eqn:Hobj.
    + destruct (clearItem (innerEl obj) nid) as [item1 nid1] eqn:Hc.
      pose proof (clearItem_cleared (innerEl obj) nid) as (_ & _ & Hn).
      rewrite Hc in Hn. cbn [snd] in Hn.
      destruct (IH _ _ Hfold) as (Hnext & Hout & Hnone & Hin). split_and!.
      * lia.
      * intros k Hk. apply not_elem_of_cons in Hk as [Hka Hk].
        rewrite (Hout k Hk). by rewrite lookup_insert_ne.
      * intros k Hk. apply Hnone. rewrite lookup_insert_ne; [done|].
        intros ->. congruence.
      * intros k o Hk Ho. apply elem_of_cons in Hk as [->|Hk].
        -- rewrite (Hout a Ha), lookup_insert_eq. rewrite Hobj in Ho.
           injection Ho as <-. exists nid. by rewrite Hc.
        -- apply Hin; [done|]. rewrite lookup_insert_ne; [done|].
           intros ->. done.
    + destruct (IH _ _ Hfold) as (Hnext & Hout & Hnone & Hin). split_and!; try done.
      * intros k Hk. apply not_elem_of_cons in Hk as [_ Hk]. by apply Hout.
      * intros k o Hk Ho. apply elem_of_cons in Hk as [->|Hk]; [congruence|].
        by apply Hin.
Qed.

Lemma clearHeadings_cleared (w : World) :
  match fileItems w with
  | None =>
      clearHeadings w = (Throw (PluginError "Could not find file explorer leaf."), w)
  | Some items =>
      exists w' items',
        clearHeadings w = (Ok tt, w')
        /\ fileItems w' = Some items'
        /\ cachedHeadings w' = cachedHeadings w
        /\ (forall k, items !! k = None -> items' !! k = None)
        /\ forall k obj, items !! k = Some obj ->
             exists obj',
               items' !! k = Some obj'
               /\ info obj' = info obj
               /\ headingNodes (innerEl obj') = Some []
               /\ ((count_below container_class (innerEl obj) <= 1)%nat ->
                   count_below container_class (innerEl obj') = 1%nat)
  end.
Proof.
  unfold clearHeadings, clearHeadingsOver, fileItemKeys.
  destruct (fileItems w) as [items|] eqn:Hitems; [|done].
  destruct (fold_left clearHeadingsOf (map_to_list items).*1 (items, nextElementId w))
    as [items' nid'] eqn:Hfold.
  apply clearHeadings_fold in Hfold as (_ & _ & Hnone & Hin);
    [|apply NoDup_fst_map_to_list].
  exists (set_nextElementId nid' (set_fileItems (Some items') w)), items'.
  split; [done|]. split; [done|]. split; [done|]. split; [done|].
  intros k obj Hk.
  destruct (Hin k obj) as (n & Hk'); [|done|].
  { apply list_elem_of_fmap. exists (k, obj). split; [done|].
    by apply elem_of_map_to_list. }
  eexists. split; [exact Hk'|]. split; [done|]. cbn [innerEl set_innerEl].
  pose proof (clearItem_cleared (innerEl obj) n) as (Hnodes & Hcount & _). done.
Qed.

(** [clearHeadings] needs the file explorer and otherwise throws, leaving
    the world alone.  With it, every tree entry keeps its key and its
    height record and ends with a heading container that has no children:
    an entry that had none gets an empty one; an entry that held at most
    one container holds exactly one afterwards.  The heading index is not
    touched. *)
Theorem clearHeadings_empties_every_entry (w : World) :
  match fileItems w with
  | None =>
      clearHeadings w = (Throw (PluginError "Could not find file explorer leaf."), w)
  | Some items =>
      exists w' items',
        clearHeadings w = (Ok tt, w')
        /\ fileItems w' = Some items'
        /\ cachedHeadings w' = cachedHeadings w
        /\ (forall k, items !! k = None -> items' !! k = None)
        /\ forall k obj, items !! k = Some obj ->
             exists obj',
               items' !! k = Some obj'
               /\ info obj' = info obj
               /\ headingNodes (innerEl obj') = Some []
               /\ ((count_below container_class (innerEl obj) <= 1)%nat ->
                   count_below container_class (innerEl obj') = 1%nat)
  end.
Proof. exact (clearHeadings_cleared w). Qed.

(** ** The rebuild loop and the index *)

Lemma clearExplorerHeight_lookup (w : World) (k : string) :
  fileItems (clearExplorerHeight w) ≫= (fun items => items !! k)
  = (fun obj => mkFileItem (mkInfo 0 false) (innerEl obj))
      <$> (fileItems w ≫= (fun items => items !! k)).
Proof.
  unfold clearExplorerHeight. destruct (fileItems w) as [items|] eqn:Hi.
  - simpl. by rewrite lookup_fmap.
  - by rewrite Hi.
Qed.

Lemma clearExplorerHeight_index (w : World) :
  cachedHeadings (clearExplorerHeight w) = cachedHeadings w.
Proof. unfold clearExplorerHeight. by destruct (fileItems w). Qed.

Section RebuildLoop.
Context `{engine : RegExpEngine}.

Lemma init_loop_app (l1 l2 : list TFile) (w : World) :
  init_loop (l1 ++ l2) w
  = match init_loop l1 w with
    | (Ok _, w1) => init_loop l2 w1
    | (Throw e, w1) => (Throw e, w1)
    end.
Proof.
  revert w. induction l1 as [|f l1 IH]; intros w; [done|].
  rewrite <- app_comm_cons, !init_loop_step.
  destruct (createHeadingsForFile f w) as [[r|e] w1]; [apply IH|done].
Qed.

Lemma init_loop_other_names (files : list TFile) (w w' : World)
    (r : Result unit) (k : string) :
  init_loop files w = (r, w') ->
  (forall g, g ∈ files -> name g <> k) ->
  cachedHeadings w' !! k = cachedHeadings w !! k.
Proof.
  revert w. induction files as [|f files IH]; intros w Hrun Hnames.
  - by injection Hrun as <- <-.
  - rewrite init_loop_step in Hrun.
    pose proof (createHeadingsForFile_keeps f w) as [_ Hidx].
    destruct (createHeadingsForFile f w) as [[hs|e] w1]; simpl in Hidx.
    + rewrite (IH _ Hrun); [|intros g Hg; apply Hnames; by apply list_elem_of_further].
      cbn [cachedHeadings set_cachedHeadings].
      rewrite lookup_insert_ne; [by rewrite Hidx|].
      apply Hnames, list_elem_of_here.
    + injection Hrun as <- <-. by rewrite Hidx.
Qed.

(** The index is keyed by file name.  After a rebuild loop that returns,
    the entry under a file's name is what the build of the last file of
    that name returned, in the world the loop had reached: every file of
    the list has an entry, and of two files of one name the earlier one
    is shadowed. *)
Theorem init_loop_last_file_of_a_name_wins (before after : list TFile) (f : TFile)
    (w w' : World) :
  init_loop (before ++ f :: after) w = (Ok tt, w') ->
  (forall g, g ∈ after -> name g <> name f) ->
  exists wb r wf,
    init_loop before w = (Ok tt, wb)
    /\ createHeadingsForFile f wb = (Ok r, wf)
    /\ cachedHeadings w' !! name f = Some r.
Proof.
  intros Hrun Hafter. rewrite init_loop_app in Hrun.
  destruct (init_loop before w) as [[[]|e] wb]; [|done].
  rewrite init_loop_step in Hrun.
  destruct (createHeadingsForFile f wb) as [[r|e] wf] eqn:Hf; [|done].
  exists wb, r, wf. split; [done|]. split; [done|].
  rewrite (init_loop_other_names _ _ _ _ _ Hrun Hafter).
  cbn [cachedHeadings set_cachedHeadings]. apply lookup_insert_eq.
Qed.

(** Every array a build returns is sorted by line. *)
Lemma createHeadingsForFile_result_sorted (file : TFile) (w w' : World)
    (hs : list HeadingEntry) :
  createHeadingsForFile file w = (Ok (Some hs), w') -> sorted_by_line hs.
Proof.
  intros Hb. apply createHeadingsForFile_built in Hb as (fc & matched & _ & _ & Hd).
  apply createClickableHeadings_entries in Hd as [_ Hl].
  unfold sorted_by_line. change (map line hs) with (line <$> hs). rewrite Hl.
  apply Array_sort_sorted.
Qed.

Lemma init_loop_sorted (files : list TFile) (w : World) :
  index_sorted w -> index_sorted (snd (init_loop files w)).
Proof.
  revert w. induction files as [|f files IH]; intros w Hw; [done|].
  rewrite init_loop_step.
  pose proof (createHeadingsForFile_keeps f w) as [_ Hidx].
  destruct (createHeadingsForFile f w) as [[r|e] w1] eqn:Hf; simpl in Hidx.
  - apply IH. intros k hs. cbn [cachedHeadings set_cachedHeadings].
    destruct (decide (name f = k)) as [<-|Hne].
    + rewrite lookup_insert_eq. intros [= ->].
      by eapply createHeadingsForFile_result_sorted.
    + rewrite lookup_insert_ne by done. rewrite Hidx. apply Hw.
  - intros k hs. cbn [snd]. rewrite Hidx. apply Hw.
Qed.

Lemma init_sorted (w : World) : index_sorted w -> index_sorted (snd (init w)).
Proof.
  intros Hw. unfold init.
  destruct (negb (showHeadings (settings w))).
  - intros k hs. cbn [snd]. rewrite clearExplorerHeight_index. apply Hw.
  - pose proof (init_loop_sorted (markdownFiles w) w Hw) as Hs.
    destruct (init_loop (markdownFiles w) w) as [[[]|e] w1]; cbn [snd] in *; [|done].
    intros k hs. rewrite clearExplorerHeight_index. apply Hs.
Qed.

Lemma clearHeadings_index (w : World) :
  cachedHeadings (snd (clearHeadings w)) = cachedHeadings w.
Proof.
  unfold clearHeadings, clearHeadingsOver.
  destruct (fileItems w) as [items|]; [|done].
  by destruct (fold_left _ _ _) as [items' nid'].
Qed.

(** Sortedness of the index is an invariant of the plugin: an index whose
    arrays are all sorted by line stays so through [init], a rebuild of
    one file, a full recalculation and a highlight request, whether they
    return or throw. *)
Theorem index_stays_sorted (w : World) (file : TFile) :
  index_sorted w ->
  index_sorted (snd (init w))
  /\ index_sorted (snd (rebuildFile file w))
  /\ index_sorted (snd (recalculateHeadings w))
  /\ index_sorted (snd (highlightFileWithHeading w)).
Proof.
  intros Hw. split_and!.
  - by apply init_sorted.
  - unfold rebuildFile.
    pose proof (createHeadingsForFile_keeps file w) as [_ Hidx].
    destruct (createHeadingsForFile file w) as [[r|e] w1] eqn:Hf; simpl in Hidx.
    + intros k hs. cbn [snd]. rewrite clearExplorerHeight_index.
      cbn [cachedHeadings set_cachedHeadings].
      destruct (decide (name file = k)) as [<-|Hne].
      * rewrite lookup_insert_eq. intros [= ->].
        by eapply createHeadingsForFile_result_sorted.
      * rewrite lookup_insert_ne by done. rewrite Hidx. apply Hw.
    + intros k hs. cbn [snd]. rewrite Hidx. apply Hw.
  - unfold recalculateHeadings, bind.
    pose proof (clearHeadings_index (set_cachedHeadings ∅ w)) as Hc.
    destruct (clearHeadings (set_cachedHeadings ∅ w)) as [[[]|e] w1]; cbn [snd] in *.
    + apply init_sorted. intros k hs. rewrite Hc. simpl. by rewrite lookup_empty.
    + intros k hs. rewrite Hc. simpl. by rewrite lookup_empty.
  - unfold highlightFileWithHeading.
    destruct (lastActiveMarkdownLeaf w) as [leaf|]; [|done].
    destruct (view_file leaf) as [f|]; [|done].
    destruct (findClosestLineOnOrAbove _ _) as [[e|]|err]; try done.
    destruct (uiElement e) as [r|]; [|done].
    intros k hs. cbn [snd cachedHeadings set_timers].
    unfold addClassEverywhere. cbn [fileItems set_revealed].
    by destruct (fileItems w); apply Hw.
Qed.

End RebuildLoop.

Lemma init_loop_last_file_of_a_name_wins_witness :
  init_loop (engine := HostRegExp.engine)
    ([Demo.a_md] ++ mkFile "archive/a.md" "a.md" "md" :: [Demo.b_md]) Demo.world
  = (Ok tt,
     snd (init_loop (engine := HostRegExp.engine)
            ([Demo.a_md] ++ mkFile "archive/a.md" "a.md" "md" :: [Demo.b_md])
            Demo.world))
  /\ (forall g, g ∈ [Demo.b_md] -> name g <> name (mkFile "archive/a.md" "a.md" "md"))
  /\ exists wb r wf,
       init_loop (engine := HostRegExp.engine) [Demo.a_md] Demo.world = (Ok tt, wb)
       /\ createHeadingsForFile (engine := HostRegExp.engine)
            (mkFile "archive/a.md" "a.md" "md") wb = (Ok r, wf)
       /\ cachedHeadings
            (snd (init_loop (engine := HostRegExp.engine)
                    ([Demo.a_md] ++ mkFile "archive/a.md" "a.md" "md" :: [Demo.b_md])
                    Demo.world))
          !! name (mkFile "archive/a.md" "a.md" "md") = Some r.
Proof.
  assert (init_loop (engine := HostRegExp.engine)
            ([Demo.a_md] ++ mkFile "archive/a.md" "a.md" "md" :: [Demo.b_md]) Demo.world
          = (Ok tt,
             snd (init_loop (engine := HostRegExp.engine)
                    ([Demo.a_md] ++ mkFile "archive/a.md" "a.md" "md" :: [Demo.b_md])
                    Demo.world))) as H1 by (vm_compute; reflexivity).
  assert (forall g, g ∈ [Demo.b_md] ->
                    name g <> name (mkFile "archive/a.md" "a.md" "md")) as H2.
  { intros g Hg. apply list_elem_of_singleton in Hg. subst g. discriminate. }
  split; [exact H1|]. split; [exact H2|].
  exact (init_loop_last_file_of_a_name_wins (engine := HostRegExp.engine)
           [Demo.a_md] [Demo.b_md] _ Demo.world _ H1 H2).
Defined.

Lemma index_stays_sorted_witness :
  index_sorted Demo.world
  /\ index_sorted (snd (init (engine := HostRegExp.engine) Demo.world))
  /\ index_sorted (snd (rebuildFile (engine := HostRegExp.engine) Demo.a_md Demo.world))
  /\ index_sorted (snd (recalculateHeadings (engine := HostRegExp.engine) Demo.world))
  /\ index_sorted (snd (highlightFileWithHeading Demo.world)).
Proof.
  assert (index_sorted Demo.world) as H.
  { intros k hs Hk. simpl in Hk. by rewrite lookup_empty in Hk. }
  split; [exact H|].
  exact (index_stays_sorted (engine := HostRegExp.engine) Demo.world Demo.a_md H).
Defined.

(** ** Full recalculation *)

Lemma clearHeadings_keeps (w : World) :
  settings (snd (clearHeadings w)) = settings w
  /\ markdownFiles (snd (clearHeadings w)) = markdownFiles w.
Proof.
  unfold clearHeadings, clearHeadingsOver.
  destruct (fileItems w) as [items|]; [|done].
  by destruct (fold_left _ _ _) as [items' nid'].
Qed.

Section Recalculation.
Context `{engine : RegExpEngine}.

(** With heading display switched off, a full recalculation returns and
    leaves the index empty and every tree entry with a heading container
    that has no children. *)
Theorem recalculateHeadings_disabled_clears_all (w : World)
    (items : gmap string FileItem) :
  showHeadings (settings w) = false ->
  fileItems w = Some items ->
  exists w',
    recalculateHeadings w = (Ok tt, w')
    /\ cachedHeadings w' = ∅
    /\ forall k obj, items !! k = Some obj ->
         exists obj',
           fileItems w' ≫= (fun its => its !! k) = Some obj'
           /\ headingNodes (innerEl obj') = Some [].
Proof.
  intros Hoff Hitems. unfold recalculateHeadings, bind.
  pose proof (clearHeadings_cleared (set_cachedHeadings ∅ w)) as Hc.
  pose proof (clearHeadings_keeps (set_cachedHeadings ∅ w)) as [Hset _].
  cbn [fileItems set_cachedHeadings] in Hc. rewrite Hitems in Hc.
  destruct Hc as (w1 & items1 & Hrun & Hitems1 & Hidx & _ & Hall).
  rewrite Hrun in *. cbn [snd] in Hset.
  unfold init. rewrite Hset. cbn [settings set_cachedHeadings]. rewrite Hoff.
  cbn [negb]. eexists. split; [reflexivity|]. split.
  - by rewrite clearExplorerHeight_index, Hidx.
  - intros k obj Hk. destruct (Hall k obj Hk) as (obj' & Hk' & _ & Hnodes & _).
    exists (mkFileItem (mkInfo 0 false) (innerEl obj')).
    rewrite clearExplorerHeight_lookup, Hitems1. simpl. rewrite Hk'. done.
Qed.

(** A full recalculation that returns leaves no entry in the index under
    a name that no markdown file of the vault has: entries of deleted or
    renamed files are dropped. *)
Theorem recalculateHeadings_drops_stale_names (w w' : World) (k : string) :
  recalculateHeadings w = (Ok tt, w') ->
  (forall f, f ∈ markdownFiles w -> name f <> k) ->
  cachedHeadings w' !! k = None.
Proof.
  unfold recalculateHeadings, bind. intros Hrun Hnames.
  pose proof (clearHeadings_index (set_cachedHeadings ∅ w)) as Hidx.
  pose proof (clearHeadings_keeps (set_cachedHeadings ∅ w)) as [_ Hfiles].
  destruct (clearHeadings (set_cachedHeadings ∅ w)) as [[[]|e] w1]; [|done].
  cbn [snd] in *. simpl in Hidx, Hfiles.
  unfold init in Hrun. destruct (negb (showHeadings (settings w1))).
  - injection Hrun as <-. by rewrite clearExplorerHeight_index, Hidx, lookup_empty.
  - destruct (init_loop (markdownFiles w1) w1) as [[[]|e] w2] eqn:Hloop; [|done].
    injection Hrun as <-. rewrite clearExplorerHeight_index.
    rewrite (init_loop_other_names _ _ _ _ k Hloop).
    + by rewrite Hidx, lookup_empty.
    + rewrite Hfiles. exact Hnames.
Qed.
End Recalculation.

Lemma recalculateHeadings_disabled_clears_all_witness :
  showHeadings (settings (Demo.with_settings (settings Demo.world_off) Demo.world_a))
  = false
  /\ fileItems (Demo.with_settings (settings Demo.world_off) Demo.world_a)
     = Some (default ∅ (fileItems Demo.world_a))
  /\ exists w',
       recalculateHeadings (engine := HostRegExp.engine)
         (Demo.with_settings (settings Demo.world_off) Demo.world_a) = (Ok tt, w')
       /\ cachedHeadings w' = ∅
       /\ forall k obj, default ∅ (fileItems Demo.world_a) !! k = Some obj ->
            exists obj',
              fileItems w' ≫= (fun its => its !! k) = Some obj'
              /\ headingNodes (innerEl obj') = Some [].
Proof.
  assert (showHeadings
            (settings (Demo.with_settings (settings Demo.world_off) Demo.world_a))
          = false) as H1 by reflexivity.
  assert (fileItems (Demo.with_settings (settings Demo.world_off) Demo.world_a)
          = Some (default ∅ (fileItems Demo.world_a))) as H2
    by (vm_compute; reflexivity).
  split; [exact H1|]. split; [exact H2|].
  exact (recalculateHeadings_disabled_clears_all (engine := HostRegExp.engine)
           _ _ H1 H2).
Defined.

Lemma recalculateHeadings_drops_stale_names_witness :
  recalculateHeadings (engine := HostRegExp.engine)
    (set_cachedHeadings {[ "gone.md" := Some [h_ 0 "old"] ]} Demo.world)
  = (Ok tt,
     snd (recalculateHeadings (engine := HostRegExp.engine)
            (set_cachedHeadings {[ "gone.md" := Some [h_ 0 "old"] ]} Demo.world)))
  /\ (forall f,
        f ∈ markdownFiles
              (set_cachedHeadings {[ "gone.md" := Some [h_ 0 "old"] ]} Demo.world) ->
        name f <> "gone.md")
  /\ cachedHeadings
       (snd (recalculateHeadings (engine := HostRegExp.engine)
               (set_cachedHeadings {[ "gone.md" := Some [h_ 0 "old"] ]} Demo.world)))
     !! "gone.md" = None.
Proof.
  assert (recalculateHeadings (engine := HostRegExp.engine)
            (set_cachedHeadings {[ "gone.md" := Some [h_ 0 "old"] ]} Demo.world)
          = (Ok tt,
             snd (recalculateHeadings (engine := HostRegExp.engine)
                    (set_cachedHeadings {[ "gone.md" := Some [h_ 0 "old"] ]}
                                        Demo.world)))) as H1
    by (vm_compute; reflexivity).
  assert (forall f,
            f ∈ markdownFiles
                  (set_cachedHeadings {[ "gone.md" := Some [h_ 0 "old"] ]} Demo.world) ->
            name f <> "gone.md") as H2.
  { intros f Hf. simpl in Hf.
    apply elem_of_cons in Hf as [->|Hf]; [discriminate|].
    apply list_elem_of_singleton in Hf. subst f. discriminate. }
  split; [exact H1|]. split; [exact H2|].
  exact (recalculateHeadings_drops_stale_names (engine := HostRegExp.engine)
           _ _ "gone.md" H1 H2).
Defined.

(** ** Highlighting the heading above the cursor *)

Lemma set_innerEl_own (it : FileItem) : set_innerEl (innerEl it) it = it.
Proof. by destruct it. Qed.

Lemma addClassEverywhere_lookup (r : ElementRef) (c : string) (w : World) (k : string) :
  fileItems (addClassEverywhere r c w) ≫= (fun items => items !! k)
  = (fun it => set_innerEl (addClassRef r c (innerEl it)) it)
      <$> (fileItems w ≫= (fun items => items !! k)).
Proof.
  unfold addClassEverywhere. destruct (fileItems w) as [items|] eqn:Hi.
  - simpl. by rewrite lookup_fmap.
  - by rewrite Hi.
Qed.

Lemma addClassEverywhere_keeps (r : ElementRef) (c : string) (w : World) :
  revealed (addClassEverywhere r c w) = revealed w
  /\ cachedHeadings (addClassEverywhere r c w) = cachedHeadings w
  /\ timers (addClassEverywhere r c w) = timers w
  /\ lastActiveMarkdownLeaf (addClassEverywhere r c w) = lastActiveMarkdownLeaf w.
Proof. unfold addClassEverywhere. by destruct (fileItems w). Qed.

Lemma highlight_nearest_run (w : World) (leaf : WorkspaceLeaf) (file : TFile)
    (hs : list HeadingEntry) :
  lastActiveMarkdownLeaf w = Some leaf ->
  view_file leaf = Some file ->
  cachedHeadings w !! name file = Some (Some hs) ->
  sorted_by_line hs ->
  exists r w',
    findClosestLineOnOrAbove (Some hs) (cursor_line leaf) = Ok r
    /\ nearest_at_or_above hs (cursor_line leaf) r
    /\ highlightFileWithHeading w = (Ok tt, w')
    /\ revealed w' = revealed w ++ [path file]
    /\ cachedHeadings w' = cachedHeadings w
    /\ timers w'
       = timers w ++ match r with
                     | Some e => [(2000, RemoveClass (uiElement e) "highlighted-heading")]
                     | None => []
                     end
    /\ forall k,
         fileItems w' ≫= (fun items => items !! k)
         = (fun it => set_innerEl (markNearest r (innerEl it)) it)
             <$> (fileItems w ≫= (fun items => items !! k)).
Proof.
  intros Hleaf Hfile Hidx Hsorted.
  destruct (findClosest_nearest hs (cursor_line leaf) Hsorted) as (r & Hr & Hn).
  exists r. unfold highlightFileWithHeading. rewrite Hleaf, Hfile, Hidx.
  simpl mjoin. rewrite Hr.
  destruct r as [e|].
  - eexists. split; [done|]. split; [done|]. split; [reflexivity|].
    unfold markNearest. change (Some e ≫= uiElement) with (uiElement e).
    destruct (uiElement e) as [node|].
    + pose proof (addClassEverywhere_keeps node "highlighted-heading"
                    (set_revealed (revealed w ++ [path file]) w))
        as (Hrev & Hcache & Htimers & _).
      cbn [revealed cachedHeadings timers fileItems set_timers].
      rewrite Hrev, Hcache, Htimers. split_and!; try done.
      intros k.
      exact (addClassEverywhere_lookup node "highlighted-heading"
               (set_revealed (revealed w ++ [path file]) w) k).
    + split_and!; try done. intros k.
      cbn [fileItems set_timers set_revealed].
      destruct (fileItems w ≫= _) as [it|]; [|done]. simpl. by rewrite set_innerEl_own.
  - eexists. split; [done|]. split; [done|]. split; [reflexivity|].
    split_and!; try done.
    + simpl. by rewrite app_nil_r.
    + intros k. unfold markNearest. simpl.
      destruct (fileItems w ≫= _) as [it|]; [|done]. simpl. by rewrite set_innerEl_own.
Qed.

(** For a focused file whose index entry is a sorted array the request
    returns: it asks the host to reveal the file, looks up an entry of
    greatest line not beyond the cursor line, puts the highlight class on
    the node that entry points at and schedules its removal two seconds
    later; with no heading at or above the cursor it only reveals the
    file.  The index is left as it is. *)
Theorem highlight_marks_nearest (w : World) (leaf : WorkspaceLeaf) (file : TFile)
    (hs : list HeadingEntry) :
  lastActiveMarkdownLeaf w = Some leaf ->
  view_file leaf = Some file ->
  cachedHeadings w !! name file = Some (Some hs) ->
  sorted_by_line hs ->
  exists r w',
    findClosestLineOnOrAbove (Some hs) (cursor_line leaf) = Ok r
    /\ nearest_at_or_above hs (cursor_line leaf) r
    /\ highlightFileWithHeading w = (Ok tt, w')
    /\ revealed w' = revealed w ++ [path file]
    /\ cachedHeadings w' = cachedHeadings w
    /\ timers w'
       = timers w ++ match r with
                     | Some e => [(2000, RemoveClass (uiElement e) "highlighted-heading")]
                     | None => []
                     end
    /\ forall k,
         fileItems w' ≫= (fun items => items !! k)
         = (fun it => set_innerEl (markNearest r (innerEl it)) it)
             <$> (fileItems w ≫= (fun items => items !! k)).
Proof. exact (highlight_nearest_run w leaf file hs). Qed.



Lemma highlight_marks_nearest_witness :
  lastActiveMarkdownLeaf (snd (init (engine := HostRegExp.engine) Demo.world))
  = Some (mkLeaf (Some Demo.a_md) 2)
  /\ view_file (mkLeaf (Some Demo.a_md) 2) = Some Demo.a_md
  /\ cachedHeadings (snd (init (engine := HostRegExp.engine) Demo.world))
       !! name Demo.a_md = Some (Some Demo.a_index)
  /\ sorted_by_line Demo.a_index
  /\ exists r w',
       findClosestLineOnOrAbove (Some Demo.a_index)
                                (cursor_line (mkLeaf (Some Demo.a_md) 2)) = Ok r
       /\ nearest_at_or_above Demo.a_index (cursor_line (mkLeaf (Some Demo.a_md) 2)) r
       /\ highlightFileWithHeading (snd (init (engine := HostRegExp.engine) Demo.world))
          = (Ok tt, w')
       /\ revealed w'
          = revealed (snd (init (engine := HostRegExp.engine) Demo.world))
            ++ [path Demo.a_md]
       /\ cachedHeadings w'
          = cachedHeadings (snd (init (engine := HostRegExp.engine) Demo.world))
       /\ timers w'
          = timers (snd (init (engine := HostRegExp.engine) Demo.world))
            ++ match r with
               | Some e => [(2000, RemoveClass (uiElement e) "highlighted-heading")]
               | None => []
               end
       /\ forall k,
            fileItems w' ≫= (fun items => items !! k)
            = (fun it => set_innerEl (markNearest r (innerEl it)) it)
                <$> (fileItems (snd (init (engine := HostRegExp.engine) Demo.world))
                       ≫= (fun items => items !! k)).
Proof.
  assert (lastActiveMarkdownLeaf (snd (init (engine := HostRegExp.engine) Demo.world))
          = Some (mkLeaf (Some Demo.a_md) 2)) as H1 by (vm_compute; reflexivity).
  assert (view_file (mkLeaf (Some Demo.a_md) 2) = Some Demo.a_md) as H2 by reflexivity.
  assert (cachedHeadings (snd (init (engine := HostRegExp.engine) Demo.world))
            !! name Demo.a_md = Some (Some Demo.a_index)) as H3
    by (vm_compute; reflexivity).
  assert (sorted_by_line Demo.a_index) as H4.
  { unfold sorted_by_line. simpl.
    repeat (constructor; [|repeat constructor; lia]). constructor. }
  split; [exact H1|]. split; [exact H2|]. split; [exact H3|]. split; [exact H4|].
  exact (highlight_marks_nearest _ _ _ _ H1 H2 H3 H4).
Defined.

(** ** From a rebuild to the highlighted node *)

Lemma el_children_addClassRef (r : ElementRef) (c : string) (e : Element) :
  el_children (addClassRef r c e) = map (addClassRef r c) (el_children e).
Proof. by destruct e. Qed.

Lemma existsb_eqb_snoc (c' c : string) (cl : list string) :
  existsb (String.eqb c') (cl ++ [c]) = existsb (String.eqb c') cl || String.eqb c' c.
Proof. rewrite existsb_app. simpl. by rewrite orb_false_r. Qed.

Lemma has_class_addClassRef_other (r : ElementRef) (c c' : string) (e : Element) :
  c' <> c -> has_class c' (addClassRef r c e) = has_class c' e.
Proof.
  intros Hne. destruct e as [i cl t m l ch]. unfold has_class. simpl.
  destruct (i =? r)%nat; [|done].
  destruct (existsb (String.eqb c) cl); [done|].
  rewrite existsb_eqb_snoc. apply String.eqb_neq in Hne. rewrite Hne.
  by rewrite orb_false_r.
Qed.

Lemma has_class_addClassRef_same (r : ElementRef) (c : string) (e : Element) :
  has_class c (addClassRef r c e) = has_class c e || (el_id e =? r)%nat.
Proof.
  destruct e as [i cl t m l ch]. unfold has_class. simpl.
  destruct (i =? r)%nat; [|by rewrite orb_false_r].
  destruct (existsb (String.eqb c) cl) eqn:Hc; [by rewrite Hc|].
  by rewrite existsb_eqb_snoc, Hc, String.eqb_refl.
Qed.

Lemma first_in_map {A} (q : A -> option Path) (g : A -> A) (l : list A) :
  Forall (fun x => q (g x) = q x) l -> first_in q (map g l) = first_in q l.
Proof.
  induction 1 as [|x l Hx _ IH]; simpl; [done|]. by rewrite Hx, IH.
Qed.

Lemma find_class_addClassRef (r : ElementRef) (c c' : string) (e : Element) :
  c' <> c -> find_class c' (addClassRef r c e) = find_class c' e.
Proof.
  intros Hne. induction e as [i cl t m l ch IH] using Element_forall_ind.
  pose proof (has_class_addClassRef_other r c c' (mkElement i cl t m l ch) Hne) as Hc.
  unfold has_class in Hc. simpl in Hc. simpl. rewrite Hc.
  destruct (existsb (String.eqb c') cl); [done|]. by apply first_in_map.
Qed.

Lemma querySelector_addClassRef (r : ElementRef) (c c' : string) (item : Element) :
  c' <> c -> querySelector c' (addClassRef r c item) = querySelector c' item.
Proof.
  intros Hne. unfold querySelector. rewrite el_children_addClassRef.
  apply first_in_map, Forall_forall. intros x _. by apply find_class_addClassRef.
Qed.

Lemma getAt_addClassRef (r : ElementRef) (c : string) (p : Path) (e : Element) :
  getAt p (addClassRef r c e) = addClassRef r c <$> getAt p e.
Proof.
  revert e. induction p as [|i p IH]; intros e; simpl; [done|].
  rewrite el_children_addClassRef.
  change (map (addClassRef r c) (el_children e))
    with (addClassRef r c <$> el_children e).
  rewrite list_lookup_fmap.
  destruct (el_children e !! i) as [x|]; simpl; [apply IH|done].
Qed.

Lemma headingNodes_addClassRef (r : ElementRef) (c : string) (item : Element) :
  container_class <> c ->
  headingNodes (addClassRef r c item) = map (addClassRef r c) <$> headingNodes item.
Proof.
  intros Hne. unfold headingNodes. rewrite querySelector_addClassRef by done.
  destruct (querySelector container_class item) as [p|]; [|done]. simpl.
  rewrite getAt_addClassRef.
  destruct (getAt p item) as [x|]; [|done]. simpl.
  by rewrite el_children_addClassRef.
Qed.

Lemma drawnEntries_lookup (hs : list HeadingEntry) (nid : ElementRef) (i : nat)
    (e : HeadingEntry) :
  drawnEntries hs nid !! i = Some e -> uiElement e = Some (nid + i)%nat.
Proof.
  revert nid i. induction hs as [|h hs IH]; intros nid i; [done|].
  destruct i as [|i]; simpl.
  - intros [= <-]. simpl. f_equal. lia.
  - intros Hi. rewrite (IH _ _ Hi). f_equal. lia.
Qed.

Lemma headingItems_lookup (file : TFile) (mult : Z) (hs : list HeadingEntry)
    (nid : ElementRef) (i : nat) (n : Element) :
  headingItems file mult hs nid !! i = Some n ->
  el_id n = (nid + i)%nat /\ el_classes n = [heading_class] /\ el_children n = [].
Proof.
  revert nid i. induction hs as [|h hs IH]; intros nid i; [done|].
  destruct i as [|i]; simpl.
  - intros [= <-]. simpl. split; [lia|done].
  - intros Hi. destruct (IH _ _ Hi) as (Hid & Hcl & Hch). split; [lia|done].
Qed.

Lemma headingItems_length (file : TFile) (mult : Z) (hs : list HeadingEntry)
    (nid : ElementRef) :
  length (headingItems file mult hs nid) = length hs.
Proof. revert nid. induction hs as [|h hs IH]; intros nid; simpl; [done|]. by rewrite IH. Qed.

Lemma drawnEntries_length (hs : list HeadingEntry) (nid : ElementRef) :
  length (drawnEntries hs nid) = length hs.
Proof. revert nid. induction hs as [|h hs IH]; intros nid; simpl; [done|]. by rewrite IH. Qed.

Lemma treeEntry_lookup (w : World) (file : TFile) :
  treeEntry w file = innerEl <$> (fileItems w ≫= (fun items => items !! path file)).
Proof. unfold treeEntry. by destruct (fileItems w). Qed.

Lemma clearExplorerHeight_leaf (w : World) :
  lastActiveMarkdownLeaf (clearExplorerHeight w) = lastActiveMarkdownLeaf w.
Proof. unfold clearExplorerHeight. by destruct (fileItems w). Qed.

Section RebuildThenHighlight.
Context `{engine : RegExpEngine}.

(** From an edit to the highlight.  Once the rebuild of the focused file
    has returned and stored a non-empty index, a highlight request
    returns, and of the nodes then hanging on the file's heading
    container, one per index entry, the highlighted one is exactly the
    node of the entry the locator finds for the cursor line; with the
    cursor above every heading none is highlighted. *)
Theorem rebuild_then_highlight_marks_node (file : TFile) (leaf : WorkspaceLeaf)
    (w w1 : World) (hs : list HeadingEntry) :
  lastActiveMarkdownLeaf w = Some leaf ->
  view_file leaf = Some file ->
  rebuildFile file w = (Ok tt, w1) ->
  cachedHeadings w1 !! name file = Some (Some hs) ->
  hs <> [] ->
  exists r nodes,
    findClosestLineOnOrAbove (Some hs) (cursor_line leaf) = Ok r
    /\ nearest_at_or_above hs (cursor_line leaf) r
    /\ fst (highlightFileWithHeading w1) = Ok tt
    /\ treeEntry (snd (highlightFileWithHeading w1)) file ≫= headingNodes = Some nodes
    /\ length nodes = length hs
    /\ forall i e n,
         hs !! i = Some e -> nodes !! i = Some n ->
         (has_class "highlighted-heading" n = true <-> r = Some e).
Proof.
  intros Hleaf Hfile Hrb Hidx Hne.
  unfold rebuildFile in Hrb.
  destruct (createHeadingsForFile file w) as [[res|err] wb] eqn:Hb; [|done].
  injection Hrb as <-.
  rewrite clearExplorerHeight_index in Hidx. cbn [cachedHeadings set_cachedHeadings] in Hidx.
  rewrite lookup_insert_eq in Hidx. injection Hidx as ->.
  pose proof (createHeadingsForFile_result_sorted _ _ _ _ Hb) as Hsorted.
  apply createHeadingsForFile_built in Hb as (fc & matched & Hfc & Hpat & Hd).
  set (srt := Array_sort by_line
                (mappedHeadings (settings w) (default [] (headings fc)) ++ matched)) in *.
  pose proof Hd as Hworld.
  apply createClickableHeadings_world in Hworld
    as [[_ Hno]|(items & fi & _ & _ & _ & _ & _ & Hitems & Hfi & _ & _)].
  { destruct hs as [|d ds]; [done|]. by destruct (Hno d ds). }
  assert (srt <> []) as Hsrt.
  { intros Hnil. rewrite Hnil in Hd. injection Hd as <- _. done. }
  rewrite (createClickableHeadings_draws file srt w items fi Hsrt Hitems Hfi) in Hd.
  destruct (getHeadingContainer (innerEl fi) (nextElementId w))
    as [[item1 p] nid1] eqn:Hg.
  injection Hd as Hhs Hwb.
  apply getHeadingContainer_found in Hg as Hq.
  destruct (querySelector_getAt _ _ _ Hq) as (i0 & p' & x & -> & Hx & Hcx).
  set (new := headingItems file (getMarginMultiplier w) srt nid1) in *.
  set (item' := modifyAt (i0 :: p') (set_children new) item1) in *.
  assert (headingNodes item' = Some new) as Hnodes.
  { unfold headingNodes, item'.
    rewrite (querySelector_modifyAt container_class (set_children new) (i0 :: p') item1);
      [|by intros y Hy; rewrite has_class_set_children|done].
    cbn [mbind option_bind]. rewrite getAt_modifyAt, Hx. simpl.
    by rewrite el_children_set. }
  set (w1 := clearExplorerHeight
               (set_cachedHeadings (<[name file := Some hs]> (cachedHeadings wb)) wb)).
  assert (lastActiveMarkdownLeaf w1 = Some leaf) as Hleaf1.
  { unfold w1. rewrite clearExplorerHeight_leaf. subst wb. exact Hleaf. }
  assert (cachedHeadings w1 !! name file = Some (Some hs)) as Hidx1.
  { unfold w1. rewrite clearExplorerHeight_index. simpl. apply lookup_insert_eq. }
  assert (treeEntry w1 file = Some item') as Htree1.
  { rewrite treeEntry_lookup. unfold w1. rewrite clearExplorerHeight_lookup.
    subst wb. simpl. by rewrite lookup_insert_eq. }
  destruct (highlight_nearest_run w1 leaf file hs Hleaf1 Hfile Hidx1 Hsorted)
    as (r & w2 & Hr & Hn & Hrun & _ & _ & _ & Htree).
  rewrite Hrun. cbn [fst snd].
  assert (treeEntry w2 file = Some (markNearest r item')) as Htree2.
  { rewrite treeEntry_lookup, Htree. rewrite treeEntry_lookup in Htree1.
    destruct (fileItems w1 ≫= _) as [it|]; [|done]. simpl in *.
    by injection Htree1 as ->. }
  rewrite Htree2. cbn [mbind option_bind].
  assert (length new = length hs) as Hlen.
  { unfold new. by rewrite headingItems_length, <- Hhs, drawnEntries_length. }
  assert (forall i n0, new !! i = Some n0 ->
                       has_class "highlighted-heading" n0 = false
                       /\ el_id n0 = (nid1 + i)%nat) as Hfresh.
  { intros i n0 Hn0. apply headingItems_lookup in Hn0 as (Hid & Hcl & _).
    split; [|done]. unfold has_class. by rewrite Hcl. }
  exists r. unfold markNearest.
  destruct r as [e'|]; cbn [mbind option_bind].
  - pose proof Hn as (He' & _). apply list_elem_of_lookup in He' as [j Hj].
    assert (uiElement e' = Some (nid1 + j)%nat) as Hui.
    { rewrite <- Hhs in Hj. by apply drawnEntries_lookup in Hj. }
    rewrite Hui. rewrite headingNodes_addClassRef by discriminate. rewrite Hnodes.
    eexists. split; [done|]. split; [exact Hn|].
    split; [done|]. split; [reflexivity|]. split; [by rewrite length_map|].
    intros i e n Hi Hni.
    change (map ?f ?l) with (f <$> l) in Hni. rewrite list_lookup_fmap in Hni.
    destruct (new !! i) as [n0|] eqn:Hn0i; [|done]. injection Hni as <-.
    destruct (Hfresh i n0 Hn0i) as [Hcl Hid].
    rewrite has_class_addClassRef_same, Hcl, Hid. simpl. split.
    + intros Heq. apply Nat.eqb_eq in Heq.
      assert (i = j) as -> by lia. congruence.
    + intros [= ->]. apply Nat.eqb_eq.
      assert (uiElement e = Some (nid1 + i)%nat) as Hui'.
      { rewrite <- Hhs in Hi. by apply drawnEntries_lookup in Hi. }
      rewrite Hui in Hui'. by injection Hui'.
  - rewrite Hnodes. eexists. split; [done|]. split; [done|]. split; [done|].
    split; [reflexivity|]. split; [done|].
    intros i e n Hi Hni. destruct (Hfresh i n Hni) as [Hcl _]. rewrite Hcl. done.
Qed.
End RebuildThenHighlight.

Lemma rebuild_then_highlight_marks_node_witness :
  lastActiveMarkdownLeaf Demo.world = Some (mkLeaf (Some Demo.a_md) 2)
  /\ view_file (mkLeaf (Some Demo.a_md) 2) = Some Demo.a_md
  /\ rebuildFile (engine := HostRegExp.engine) Demo.a_md Demo.world
     = (Ok tt, snd (rebuildFile (engine := HostRegExp.engine) Demo.a_md Demo.world))
  /\ cachedHeadings (snd (rebuildFile (engine := HostRegExp.engine) Demo.a_md Demo.world))
       !! name Demo.a_md = Some (Some Demo.a_index)
  /\ Demo.a_index <> []
  /\ exists r nodes,
       findClosestLineOnOrAbove (Some Demo.a_index)
                                (cursor_line (mkLeaf (Some Demo.a_md) 2)) = Ok r
       /\ nearest_at_or_above Demo.a_index (cursor_line (mkLeaf (Some Demo.a_md) 2)) r
       /\ fst (highlightFileWithHeading
                 (snd (rebuildFile (engine := HostRegExp.engine) Demo.a_md Demo.world)))
          = Ok tt
       /\ treeEntry
            (snd (highlightFileWithHeading
                    (snd (rebuildFile (engine := HostRegExp.engine) Demo.a_md
                                      Demo.world))))
            Demo.a_md ≫= headingNodes = Some nodes
       /\ length nodes = length Demo.a_index
       /\ forall i e n,
            Demo.a_index !! i = Some e -> nodes !! i = Some n ->
            (has_class "highlighted-heading" n = true <-> r = Some e).
Proof.
  assert (lastActiveMarkdownLeaf Demo.world = Some (mkLeaf (Some Demo.a_md) 2)) as H1
    by reflexivity.
  assert (view_file (mkLeaf (Some Demo.a_md) 2) = Some Demo.a_md) as H2 by reflexivity.
  assert (rebuildFile (engine := HostRegExp.engine) Demo.a_md Demo.world
          = (Ok tt, snd (rebuildFile (engine := HostRegExp.engine) Demo.a_md Demo.world)))
    as H3 by (vm_compute; reflexivity).
  assert (cachedHeadings
            (snd (rebuildFile (engine := HostRegExp.engine) Demo.a_md Demo.world))
            !! name Demo.a_md = Some (Some Demo.a_index)) as H4
    by (vm_compute; reflexivity).
  assert (Demo.a_index <> []) as H5 by discriminate.
  split; [exact H1|]. split; [exact H2|]. split; [exact H3|]. split; [exact H4|].
  split; [exact H5|].
  exact (rebuild_then_highlight_marks_node (engine := HostRegExp.engine)
           Demo.a_md _ Demo.world _ Demo.a_index H1 H2 H3 H4 H5).
Defined.

(** ** The tree after [init] *)

Lemma headingItems_texts (file : TFile) (mult : Z) (hs : list HeadingEntry)
    (nid : ElementRef) :
  el_text <$> headingItems file mult hs nid = (fun h => default "" (text h)) <$> hs.
Proof.
  revert nid. induction hs as [|h hs IH]; intros nid; simpl; [done|]. by rewrite IH.
Qed.

Lemma drawnEntries_texts (hs : list HeadingEntry) (nid : ElementRef) :
  (fun h => default "" (text h)) <$> drawnEntries hs nid
  = (fun h => default "" (text h)) <$> hs.
Proof.
  revert nid. induction hs as [|h hs IH]; intros nid; simpl; [done|]. by rewrite IH.
Qed.

Section TreeAfterInit.
Context `{engine : RegExpEngine}.

(** Right after a build that returns entries, the file's heading container
    shows them: one node per entry with the entry's text, each entry
    pointing at its node. *)
Lemma createHeadingsForFile_tree (file : TFile) (w w' : World)
    (hs : list HeadingEntry) :
  createHeadingsForFile file w = (Ok (Some hs), w') ->
  hs <> [] ->
  exists nodes,
    treeEntry w' file ≫= headingNodes = Some nodes
    /\ uiElement <$> hs = Some <$> (el_id <$> nodes)
    /\ el_text <$> nodes = (fun h => default "" (text h)) <$> hs.
Proof.
  intros Hb Hne.
  apply createHeadingsForFile_built in Hb as (fc & matched & Hfc & Hpat & Hd).
  set (srt := Array_sort by_line
                (mappedHeadings (settings w) (default [] (headings fc)) ++ matched)) in *.
  pose proof Hd as Hworld.
  apply createClickableHeadings_world in Hworld
    as [[_ Hno]|(items & fi & _ & _ & _ & _ & _ & Hitems & Hfi & _ & _)].
  { destruct hs as [|d ds]; [done|]. by destruct (Hno d ds). }
  assert (srt <> []) as Hsrt.
  { intros Hnil. rewrite Hnil in Hd. injection Hd as <- _. done. }
  rewrite (createClickableHeadings_draws file srt w items fi Hsrt Hitems Hfi) in Hd.
  destruct (getHeadingContainer (innerEl fi) (nextElementId w))
    as [[item1 p] nid1] eqn:Hg.
  injection Hd as Hhs Hwb.
  apply getHeadingContainer_found in Hg as Hq.
  destruct (querySelector_getAt _ _ _ Hq) as (i0 & p' & x & -> & Hx & Hcx).
  exists (headingItems file (getMarginMultiplier w) srt nid1). split_and!.
  - rewrite treeEntry_lookup. subst w'.
    cbn [fileItems set_nextElementId set_fileItems mbind option_bind].
    rewrite lookup_insert_eq.
    cbn [fmap option_fmap option_map innerEl set_innerEl mbind option_bind].
    unfold headingNodes.
    rewrite (querySelector_modifyAt container_class _ (i0 :: p') item1);
      [|by intros y Hy; rewrite has_class_set_children|done].
    cbn [mbind option_bind]. rewrite getAt_modifyAt, Hx. simpl.
    by rewrite el_children_set.
  - by rewrite <- Hhs, drawnEntries_refs, headingItems_ids.
  - by rewrite <- Hhs, drawnEntries_texts, headingItems_texts.
Qed.

Lemma init_loop_other_paths (files : list TFile) (w w' : World)
    (r : Result unit) (k : string) :
  init_loop files w = (r, w') ->
  (forall g, g ∈ files -> path g <> k) ->
  fileItems w' ≫= (fun items => items !! k) = fileItems w ≫= (fun items => items !! k).
Proof.
  revert w. induction files as [|f files IH]; intros w Hrun Hpaths.
  - by injection Hrun as <- <-.
  - rewrite init_loop_step in Hrun.
    assert (path f <> k) as Hf by apply Hpaths, list_elem_of_here.
    destruct (createHeadingsForFile f w) as [res w1] eqn:Hb.
    assert (fileItems w1 ≫= (fun items => items !! k)
            = fileItems w ≫= (fun items => items !! k)) as Hstep.
    { apply createHeadingsForFile_world in Hb
        as [[-> _]|(items & fi & item' & n & d & ds & _ & Hi & _ & _ & ->)]; [done|].
      rewrite Hi. simpl. by rewrite lookup_insert_ne. }
    destruct res as [hs|e].
    + rewrite (IH _ Hrun); [exact Hstep|].
      intros g Hg. apply Hpaths. by apply list_elem_of_further.
    + injection Hrun as <- <-. exact Hstep.
Qed.

(** After an [init] that returns with headings shown, tree and index
    agree on every file whose path and name no later file of the vault
    shares and whose index entry is not empty: its heading container
    holds one node per entry, in order, with the entry's text, and entry
    [i] points at node [i]. *)
Theorem init_tree_shows_index (w w' : World) (before after : list TFile) (f : TFile)
    (hs : list HeadingEntry) :
  showHeadings (settings w) = true ->
  markdownFiles w = before ++ f :: after ->
  (forall g, g ∈ after -> path g <> path f /\ name g <> name f) ->
  init w = (Ok tt, w') ->
  cachedHeadings w' !! name f = Some (Some hs) ->
  hs <> [] ->
  exists nodes,
    treeEntry w' f ≫= headingNodes = Some nodes
    /\ uiElement <$> hs = Some <$> (el_id <$> nodes)
    /\ el_text <$> nodes = (fun h => default "" (text h)) <$> hs.
Proof.
  intros Hon Hfiles Hafter Hinit Hidx Hne.
  unfold init in Hinit. rewrite Hon, Hfiles in Hinit. cbn [negb] in Hinit.
  destruct (init_loop (before ++ f :: after) w) as [[[]|e] w2] eqn:Hloop; [|done].
  injection Hinit as <-.
  rewrite clearExplorerHeight_index in Hidx.
  rewrite init_loop_app in Hloop.
  destruct (init_loop before w) as [[[]|e] wb]; [|done].
  rewrite init_loop_step in Hloop.
  destruct (createHeadingsForFile f wb) as [[r|e] wf] eqn:Hf; [|done].
  rewrite (init_loop_other_names _ _ _ _ (name f) Hloop) in Hidx;
    [|intros g Hg; by apply Hafter].
  cbn [cachedHeadings set_cachedHeadings] in Hidx. rewrite lookup_insert_eq in Hidx.
  injection Hidx as ->.
  destruct (createHeadingsForFile_tree _ _ _ _ Hf Hne) as (nodes & Hnodes & Hrefs & Htexts).
  exists nodes. split; [|done].
  rewrite treeEntry_lookup, clearExplorerHeight_lookup.
  rewrite (init_loop_other_paths _ _ _ _ (path f) Hloop); [|intros g Hg; by apply Hafter].
  cbn [fileItems set_cachedHeadings].
  rewrite treeEntry_lookup in Hnodes.
  destruct (fileItems wf ≫= _) as [it|]; [|done]. exact Hnodes.
Qed.
End TreeAfterInit.

Lemma init_tree_shows_index_witness :
  showHeadings (settings Demo.world) = true
  /\ markdownFiles Demo.world = [] ++ Demo.a_md :: [Demo.b_md]
  /\ (forall g, g ∈ [Demo.b_md] -> path g <> path Demo.a_md /\ name g <> name Demo.a_md)
  /\ init (engine := HostRegExp.engine) Demo.world
     = (Ok tt, snd (init (engine := HostRegExp.engine) Demo.world))
  /\ cachedHeadings (snd (init (engine := HostRegExp.engine) Demo.world))
       !! name Demo.a_md = Some (Some Demo.a_index)
  /\ Demo.a_index <> []
  /\ exists nodes,
       treeEntry (snd (init (engine := HostRegExp.engine) Demo.world)) Demo.a_md
         ≫= headingNodes = Some nodes
       /\ uiElement <$> Demo.a_index = Some <$> (el_id <$> nodes)
       /\ el_text <$> nodes = (fun h => default "" (text h)) <$> Demo.a_index.
Proof.
  assert (showHeadings (settings Demo.world) = true) as H1 by reflexivity.
  assert (markdownFiles Demo.world = [] ++ Demo.a_md :: [Demo.b_md]) as H2 by reflexivity.
  assert (forall g, g ∈ [Demo.b_md] ->
                    path g <> path Demo.a_md /\ name g <> name Demo.a_md) as H3.
  { intros g Hg. apply list_elem_of_singleton in Hg. subst g. split; discriminate. }
  assert (init (engine := HostRegExp.engine) Demo.world
          = (Ok tt, snd (init (engine := HostRegExp.engine) Demo.world))) as H4
    by (vm_compute; reflexivity).
  assert (cachedHeadings (snd (init (engine := HostRegExp.engine) Demo.world))
            !! name Demo.a_md = Some (Some Demo.a_index)) as H5
    by (vm_compute; reflexivity).
  assert (Demo.a_index <> []) as H6 by discriminate.
  split; [exact H1|]. split; [exact H2|]. split; [exact H3|]. split; [exact H4|].
  split; [exact H5|]. split; [exact H6|].
  exact (init_tree_shows_index (engine := HostRegExp.engine) Demo.world _ [] [Demo.b_md]
           Demo.a_md Demo.a_index H1 H2 H3 H4 H5 H6).
Defined.

(** ** A file without a metadata-cache entry, and its name *)

Section MissingCacheEntryName.
Context `{engine : RegExpEngine}.


End MissingCacheEntryName.


